(** * scr_miners: the snapshot cache and refresh policy of the process manager

    A shallow embedding of [src/scr_miners/process_manager.py]: the classes
    [ProcessCache] and [ProcessManager].

    Process records are Python dicts, created by the manager and then mutated
    in place while several containers refer to them (the manager's list and
    the cache hold the same objects).  They are therefore modelled as objects
    in a store, addressed by reference; lists and the cache's [OrderedDict]
    hold references.  Timestamps are the binary64 floats of [time.time()].

    The operating system (the DLL, psutil, the clock) is an explicit input of
    every call: a [World] gives what it answers during the call, the
    per-identity queries by their position in the loop that makes them.  The
    calls that leave the program are recorded in a log.  The [print]
    statements are left out. *)

From Stdlib Require Import ZArith Floats.
From stdpp Require Import gmap strings list fin_maps.

Set Warnings "-inexact-float".

(** ** Python values, dicts and the object store *)

Inductive value :=
| VNone
| VInt (z : Z)
| VFloat (f : float)
| VStr (s : string).

(** A process record: a dict with string keys. *)
Abbreviation pydict := (gmap string value).

(** References to dict objects, and the store that holds them.  A reference
    is an index into the store; a fresh object is appended. *)
Abbreviation ref := nat.
Abbreviation heap := (list pydict).

Inductive exn :=
| KeyError (key : string)
| TypeError
| AttributeError
| NoSuchProcess
| AccessDenied
| OSError.

(** [except (psutil.NoSuchProcess, psutil.AccessDenied)] *)
Definition vanished_or_denied (e : exn) : bool :=
  match e with
  | NoSuchProcess | AccessDenied => true
  | _ => false
  end.

(** [proc['pid']] of a record whose identity is an integer, as psutil's pids
    and the DLL's JSON numbers are.  The code never looks at the type of the
    value; here a value of another type is answered with a TypeError, and
    what is stated of a record is stated of one with an integer identity
    ([has_pid]). *)
Definition getitem_pid (d : pydict) : exn + Z :=
  match d !! "pid" with
  | Some (VInt pid) => inr pid
  | Some _ => inl TypeError
  | None => inl (KeyError "pid")
  end.

(** The record at [proc] carries the identity [pid]. *)
Definition has_pid (h : heap) (proc : ref) (pid : Z) : Prop :=
  getitem_pid (h !!! proc) = inr pid.

(** [for field in fields: if field in cached: proc[field] = cached[field]] *)
Definition copy_fields (fields : list string) (cached proc : pydict) : pydict :=
  foldl (λ acc field,
           match cached !! field with
           | Some v => <[field := v]> acc
           | None => acc
           end) proc fields.

(** ** collections.OrderedDict, keyed by process identity *)

Module OrderedDict.

Definition t := list (Z * ref).

(** [od[k]], [None] when [k not in od]. *)
Fixpoint get (od : t) (k : Z) : option ref :=
  match od with
  | [] => None
  | (k', v) :: od' => if decide (k' = k) then Some v else get od' k
  end.

(** [od[k] = v]: an existing key keeps its position, a new one goes last. *)
Fixpoint set (od : t) (k : Z) (v : ref) : t :=
  match od with
  | [] => [(k, v)]
  | (k', v') :: od' =>
      if decide (k' = k) then (k, v) :: od' else (k', v') :: set od' k v
  end.

Definition keys (od : t) : list Z := od.*1.

(** [for k, v in items: od[k] = v] *)
Definition set_all (od : t) (items : list (Z * ref)) : t :=
  foldl (λ od kv, set od kv.1 kv.2) od items.

End OrderedDict.

(** ** class ProcessCache *)

Module ProcessCache.

Record t := mk {
  _cache : OrderedDict.t;
  max_size : Z;
  _last_update : float;
}.

Definition _static_fields : list string :=
  ["pid"; "name"; "username"; "exe"; "cwd"; "create_time"].

Definition _dynamic_fields : list string :=
  ["memory_kb"; "cpu_percent"; "status"; "num_threads"].

(** [__init__(self, max_size=500)] *)
Definition __init__ (max_size : Z) : t :=
  {| _cache := []; max_size := max_size; _last_update := 0 |}.

(** [ProcessCache()] *)
Definition default : t := __init__ 500.

(** [current_time - self._last_update < 2.0] *)
Definition in_window (self : t) (current_time : float) : bool :=
  (current_time - _last_update self <? 2)%float.

(** Lines 31-35: the static fields of a cache hit inside the staleness
    window are written into the observed record. *)
Definition carry_over (self : t) (current_time : float)
    (h : heap) (pid : Z) (proc : ref) : heap :=
  match OrderedDict.get (_cache self) pid with
  | Some cached =>
      if in_window self current_time
      then <[proc := copy_fields _static_fields (h !!! cached) (h !!! proc)]> h
      else h
  | None => h
  end.

(** The [for proc in processes] loop of [update], from the store [h] and the
    generation [new_cache] built so far.  An exception leaves the loop with
    the store as mutated up to then. *)
Fixpoint update_loop (self : t) (current_time : float)
    (processes : list ref) (h : heap) (new_cache : OrderedDict.t)
  : heap * (exn + OrderedDict.t) :=
  match processes with
  | [] => (h, inr new_cache)
  | proc :: rest =>
      match getitem_pid (h !!! proc) with
      | inl e => (h, inl e)
      | inr pid =>
          let h' := carry_over self current_time h pid proc in
          let new_cache' := OrderedDict.set new_cache pid proc in
          if (max_size self <=? Z.of_nat (length new_cache'))%Z
          then (h', inr new_cache')
          else update_loop self current_time rest h' new_cache'
      end
  end.

(** [update(self, processes)], with the reading of [time.time()] as
    [current_time].  It returns the list it was given. *)
Definition update (self : t) (h : heap) (processes : list ref)
    (current_time : float) : heap * (exn + t * list ref) :=
  match update_loop self current_time processes h [] with
  | (h', inr new_cache) =>
      (h', inr ({| _cache := new_cache;
                   max_size := max_size self;
                   _last_update := current_time |}, processes))
  | (h', inl e) => (h', inl e)
  end.

Definition cached_pids (self : t) : gset Z :=
  list_to_set (OrderedDict.keys (_cache self)).

(** [needs_full_update(self, current_pids)], with the reading of
    [time.time()] as [now]. *)
Definition needs_full_update (self : t) (current_pids : gset Z)
    (now : float) : bool :=
  let new_pids := current_pids ∖ cached_pids self in
  let gone_pids := cached_pids self ∖ current_pids in
  if (5 <? size new_pids) || (5 <? size gone_pids) then true
  else (5 <? now - _last_update self)%float.

End ProcessCache.

(** ** The operating system, as one call of the manager sees it *)

(** What [psutil.Process(pid)] and the methods read from it give. *)
Record proc_info := {
  pi_cpu_percent : float;
  pi_status : string;
  pi_username : option string;
  pi_rss : Z;
}.

(** The [info] dict of an item of [psutil.process_iter]; [None] is what psutil
    stores for an attribute it was denied access to. *)
Record iter_info := {
  info_pid : Z;
  info_name : option string;
  info_memory_info : option Z;
  info_cpu_percent : option float;
  info_status : option string;
  info_username : option string;
}.

(** What [self.dll.GetProcessesInfo()] does.  A payload that decodes and
    parses is taken to be a JSON array of objects; an element that is no
    object has no key to read and is an object without keys here.  A payload
    that parses to a number or to [true] is outside this type. *)
Inductive dll_reply :=
| DllRaises (e : exn)
| DllNull
| DllJson (parsed : exn + list pydict).

Record World := {
  os_GetProcessesInfo : dll_reply;
  os_FreeProcessInfoMemory : option exn;
  (** the outcome of the [i]-th per-identity query of the call *)
  os_Process : nat → Z → exn + proc_info;
  os_process_iter : list iter_info;
  (** [time.time()] as read in [ProcessCache.update], and after it *)
  os_time_update : float;
  os_time_done : float;
}.

(** What [psutil.Process(pid)] followed by [process.terminate()] does. *)
Inductive kill_reply :=
| ProcessRaises (e : exn)
| TerminateRaises (e : exn)
| Terminated.

(** Calls that leave the program.  [EvKill] is psutil's forceful
    [Process.kill()]. *)
Inductive event :=
| EvGetProcessesInfo
| EvFreeProcessInfoMemory
| EvProcess (pid : Z)
| EvProcessIter
| EvTerminate (pid : Z)
| EvKill (pid : Z)
| EvShowerror (title text : string) (cause : exn).

Definition is_terminate (ev : event) : bool :=
  match ev with EvTerminate _ => true | _ => false end.

Definition is_kill (ev : event) : bool :=
  match ev with EvKill _ => true | _ => false end.

(** ** class ProcessManager *)

Module ProcessManager.

Inductive WinDLL := ProcessInfo_dll.

Record t := mk {
  processes : list ref;
  cache : ProcessCache.t;
  last_full_update : float;
  dll : option WinDLL;
}.

(** The program state: the object store, the manager and the log of calls. *)
Record state := mkState {
  store : heap;
  self : t;
  log : list event;
}.

Inductive result (A : Type) :=
| Return (a : A) (s : state)
| Raise (e : exn) (s : state).
Arguments Return {A} a s.
Arguments Raise {A} e s.

Definition final {A} (r : result A) : state :=
  match r with Return _ s | Raise _ s => s end.

Definition set_store (h : heap) (s : state) : state :=
  {| store := h; self := self s; log := log s |}.

Definition set_processes (l : list ref) (s : state) : state :=
  {| store := store s;
     self := {| processes := l; cache := cache (self s);
                last_full_update := last_full_update (self s);
                dll := dll (self s) |};
     log := log s |}.

Definition emit (ev : event) (s : state) : state :=
  {| store := store s; self := self s; log := log s ++ [ev] |}.

(** [self.processes.append(d)] for a dict [d] just built. *)
Definition append_new (d : pydict) (s : state) : state :=
  set_processes (processes (self s) ++ [length (store s)])
    (set_store (store s ++ [d]) s).

(** [__init__(self)]; [load] is the outcome of the [try] block that loads
    [ProcessInfo.dll] and declares its two functions. *)
Definition __init__ (load : exn + WinDLL) : t :=
  {| processes := [];
     cache := ProcessCache.default;
     last_full_update := 0;
     dll := match load with inr d => Some d | inl _ => None end |}.

(** The program when the manager has just been created. *)
Definition init_state (load : exn + WinDLL) : state :=
  {| store := []; self := __init__ load; log := [] |}.

(** [get_processes_from_dll(self)] *)
Definition get_processes_from_dll (w : World) (s : state)
  : list pydict * state :=
  match dll (self s) with
  | None => ([], s)
  | Some _ =>
      let s := emit EvGetProcessesInfo s in
      match os_GetProcessesInfo w with
      | DllRaises _ => ([], s)
      | DllNull => ([], s)
      | DllJson (inl _) => ([], s)
      | DllJson (inr processes) =>
          let s := emit EvFreeProcessInfoMemory s in
          match os_FreeProcessInfoMemory w with
          | Some _ => ([], s)
          | None => (processes, s)
          end
      end
  end.

(** [d.update({k: v, ...})] *)
Definition dict_update (d : pydict) (items : list (string * value)) : pydict :=
  foldl (λ acc kv, <[kv.1 := kv.2]> acc) d items.

(** [u or 'N/A'] *)
Definition or_NA (u : option string) : value :=
  match u with
  | Some s => if decide (s = "") then VStr "N/A" else VStr s
  | None => VStr "N/A"
  end.

Definition opt_str (o : option string) : value :=
  match o with Some s => VStr s | None => VNone end.

Definition opt_float (o : option float) : value :=
  match o with Some f => VFloat f | None => VNone end.

(** Lines 104-111: the record of a DLL entry before it is enriched. *)
Definition new_proc (pid name memory_kb : value) : pydict :=
  {[ "pid" := pid; "name" := name; "memory_kb" := memory_kb;
     "cpu_percent" := VFloat 0; "status" := VStr "running";
     "username" := VStr "N/A" ]}.

(** Lines 116-120. *)
Definition enrich (d : pydict) (p : proc_info) : pydict :=
  dict_update d [("cpu_percent", VFloat (pi_cpu_percent p));
                 ("status", VStr (pi_status p));
                 ("username", or_NA (pi_username p))].

(** Lines 103-127: the body of the loop over the DLL's entries, for the entry
    [proc] at position [i].  The outer [except Exception] drops an entry whose
    record could not be built; nothing leaves the body.  The entries are
    those of a DLL that reports integer pids: an entry with a "pid" of
    another type is dropped here, as the TypeError of [psutil.Process] makes
    the code do for a string or a float; a "pid" that is [null], which
    [psutil.Process] takes for the calling process, is outside the model. *)
Definition dll_entry (w : World) (i : nat) (proc : pydict) (s : state)
  : state :=
  match proc !! "pid", proc !! "name", proc !! "memory_kb" with
  | Some pid, Some name, Some memory_kb =>
      match pid with
      | VInt p =>
          let s := emit (EvProcess p) s in
          match os_Process w i p with
          | inr info =>
              append_new (enrich (new_proc pid name memory_kb) info) s
          | inl e =>
              if vanished_or_denied e
              then append_new (new_proc pid name memory_kb) s
              else s
          end
      | _ => s
      end
  | _, _, _ => s
  end.

(** Lines 102-127: [for proc in dll_processes]; [i] is the position of the
    first of [entries]. *)
Fixpoint dll_loop (w : World) (i : nat) (entries : list pydict) (s : state)
  : state :=
  match entries with
  | [] => s
  | proc :: rest => dll_loop w (S i) rest (dll_entry w i proc s)
  end.

(** Lines 145-152: the record of an item of [psutil.process_iter] whose
    [memory_info] has the resident size [rss]. *)
Definition iter_record (proc : iter_info) (rss : Z) : pydict :=
  {[ "pid" := VInt (info_pid proc);
     "name" := opt_str (info_name proc);
     "memory_kb" := VInt (rss `div` 1024);
     "cpu_percent" := opt_float (info_cpu_percent proc);
     "status" := opt_str (info_status proc);
     "username" := or_NA (info_username proc) ]}.

(** Lines 143-154: the loop over [psutil.process_iter].  Reading [.rss] of a
    [memory_info] that is [None] raises an AttributeError, which the loop's
    [except] clause does not catch. *)
Fixpoint iter_loop (items : list iter_info) (s : state) : result unit :=
  match items with
  | [] => Return tt s
  | proc :: rest =>
      match info_memory_info proc with
      | None => Raise AttributeError s
      | Some rss => iter_loop rest (append_new (iter_record proc rss) s)
      end
  end.

(** Lines 129-134 and 156-161: the list goes through the cache and the time
    of the full update is recorded. *)
Definition finish_full (w : World) (s : state) : result (list ref) :=
  match ProcessCache.update (cache (self s)) (store s) (processes (self s))
          (os_time_update w) with
  | (h, inr (c, l)) =>
      Return l {| store := h;
                  self := {| processes := l; cache := c;
                             last_full_update := os_time_done w;
                             dll := dll (self s) |};
                  log := log s |}
  | (h, inl e) => Raise e (set_store h s)
  end.

(** Lines 167-171. *)
Definition refresh (d : pydict) (p : proc_info) : pydict :=
  dict_update d [("memory_kb", VInt (pi_rss p `div` 1024));
                 ("cpu_percent", VFloat (pi_cpu_percent p));
                 ("status", VStr (pi_status p))].

(** The loop of [_refresh_dynamic_data]; [i] is the position of the first of
    [procs].  The held records are those with an integer identity (see
    [getitem_pid]). *)
Fixpoint refresh_loop (w : World) (i : nat) (procs : list ref) (s : state)
  : result unit :=
  match procs with
  | [] => Return tt s
  | proc :: rest =>
      match getitem_pid (store s !!! proc) with
      | inl e => Raise e s
      | inr pid =>
          let s := emit (EvProcess pid) s in
          match os_Process w i pid with
          | inr p =>
              refresh_loop w (S i) rest
                (set_store (<[proc := refresh (store s !!! proc) p]> (store s)) s)
          | inl e =>
              if vanished_or_denied e then refresh_loop w (S i) rest s
              else Raise e s
          end
      end
  end.

Definition _refresh_dynamic_data (w : World) (s : state) : result unit :=
  refresh_loop w 0 (processes (self s)) s.

(** [get_processes(self, full_update=False)] *)
Definition get_processes (w : World) (full_update : bool) (s : state)
  : result (list ref) :=
  let '(dll_processes, s) :=
    match dll (self s) with
    | Some _ => if full_update then get_processes_from_dll w s else ([], s)
    | None => ([], s)
    end in
  match dll_processes with
  | _ :: _ => finish_full w (dll_loop w 0 dll_processes (set_processes [] s))
  | [] =>
      if negb full_update then
        match _refresh_dynamic_data w s with
        | Return _ s => Return (processes (self s)) s
        | Raise e s => Raise e s
        end
      else
        match iter_loop (os_process_iter w)
                (emit EvProcessIter (set_processes [] s)) with
        | Return _ s => finish_full w s
        | Raise e s => Raise e s
        end
  end.

(** [kill_process(self, pid)] *)
Definition kill_process (os : kill_reply) (pid : Z) (s : state)
  : bool * state :=
  let showerror e :=
    EvShowerror "Ошибка" "Не удалось завершить процесс: " e in
  match os with
  | ProcessRaises e => (false, emit (showerror e) (emit (EvProcess pid) s))
  | TerminateRaises e =>
      (false,
       emit (showerror e) (emit (EvTerminate pid) (emit (EvProcess pid) s)))
  | Terminated => (true, emit (EvTerminate pid) (emit (EvProcess pid) s))
  end.

(** The rest of a run: the application calls the manager again and again,
    and goes on after a call that raised. *)
Inductive call :=
| GetProcesses (w : World) (full_update : bool)
| KillProcess (os : kill_reply) (pid : Z).

Definition step (s : state) (c : call) : state :=
  match c with
  | GetProcesses w full_update => final (get_processes w full_update s)
  | KillProcess os pid => (kill_process os pid s).2
  end.

Definition run (calls : list call) (s : state) : state := foldl step s calls.

End ProcessManager.

(** ** Notions used in the statements *)

(** The keys of the records the manager builds. *)
Definition record_keys : list string :=
  ["pid"; "name"; "memory_kb"; "cpu_percent"; "status"; "username"].

(** No object of the store has the key [k]. *)
Definition never_has (k : string) (h : heap) : Prop :=
  ∀ r, (h !!! r) !! k = None.

(** [s'] is [s] with the fresh records [news] appended to the store and to
    the manager's list. *)
Definition grows (s s' : ProcessManager.state) (news : list pydict) : Prop :=
  ProcessManager.store s' = ProcessManager.store s ++ news ∧
  ProcessManager.processes (ProcessManager.self s') =
    ProcessManager.processes (ProcessManager.self s)
    ++ seq (length (ProcessManager.store s)) (length news) ∧
  ProcessManager.cache (ProcessManager.self s')
    = ProcessManager.cache (ProcessManager.self s) ∧
  ProcessManager.dll (ProcessManager.self s')
    = ProcessManager.dll (ProcessManager.self s) ∧
  ProcessManager.last_full_update (ProcessManager.self s')
    = ProcessManager.last_full_update (ProcessManager.self s).

(** A record as the manager builds it: it has an identity and no key beyond
    [record_keys]. *)
Definition built (d : pydict) : Prop :=
  (∃ pid, getitem_pid d = inr pid) ∧ ∀ k, k ∉ record_keys → d !! k = None.

Definition is_query (ev : event) : Prop := ∃ pid, ev = EvProcess pid.

(** ** Scenarios *)

Module Scenario.

(** An observed record with an identity and a display name. *)
Definition observed (pid : Z) (name : string) : pydict :=
  {[ "pid" := VInt pid; "name" := VStr name ]}.

(** A cache of capacity 500 that saw identity 42 as "alpha" at time 100, and
    a later observation of identity 42 as "beta". *)
Definition store42 : heap := [observed 42 "alpha"; observed 42 "beta"].

Definition cache42 : ProcessCache.t :=
  {| ProcessCache._cache := [(42%Z, 0)];
     ProcessCache.max_size := 500;
     ProcessCache._last_update := 100 |}.

(** Identity 2 seen as "alpha", then the identities 1 and 2 observed, the
    latter as "beta". *)
Definition store_cap1 : heap :=
  [observed 2 "alpha"; observed 1 "x"; observed 2 "beta"].

(** The cache of capacity 1 after it saw identity 2 at time 100. *)
Definition cache_cap1 : ProcessCache.t :=
  {| ProcessCache._cache := [(2%Z, 0)];
     ProcessCache.max_size := 1;
     ProcessCache._last_update := 100 |}.

(** Five records a, b, c, d, e with the identities 1 to 5. *)
Definition store5 : heap :=
  [observed 1 "a"; observed 2 "b"; observed 3 "c"; observed 4 "d";
   observed 5 "e"].

(** A cache holding the identities 1, 2 and 3, last updated at time 2. *)
Definition cache123 : ProcessCache.t :=
  {| ProcessCache._cache := [(1%Z, 0); (2%Z, 1); (3%Z, 2)];
     ProcessCache.max_size := 500;
     ProcessCache._last_update := 2 |}.

Definition system_item : iter_info :=
  {| info_pid := 4%Z; info_name := Some "System";
     info_memory_info := Some 4194304%Z; info_cpu_percent := Some 0.5%float;
     info_status := Some "running"; info_username := Some "root" |}.

Definition busy : proc_info :=
  {| pi_cpu_percent := 12.5; pi_status := "sleeping";
     pi_username := Some "alice"; pi_rss := 8388608%Z |}.

(** The DLL's call raises; psutil lists one process. *)
Definition dll_down : World :=
  {| os_GetProcessesInfo := DllRaises OSError;
     os_FreeProcessInfoMemory := None;
     os_Process := λ _ _, inl NoSuchProcess;
     os_process_iter := [system_item];
     os_time_update := 1000; os_time_done := 1000 |}.

Definition dll_item (pid : Z) (name : string) (memory_kb : Z) : pydict :=
  {[ "pid" := VInt pid; "name" := VStr name; "memory_kb" := VInt memory_kb ]}.

(** The DLL lists the identities 10 and 11; psutil is denied access to the
    first process it is asked about and answers for every other. *)
Definition dll_up : World :=
  {| os_GetProcessesInfo := DllJson (inr [dll_item 10 "a" 5; dll_item 11 "b" 6]);
     os_FreeProcessInfoMemory := None;
     os_Process := λ i _, match i with 0 => inl AccessDenied | _ => inr busy end;
     os_process_iter := [];
     os_time_update := 1000; os_time_done := 1000 |}.

(** A manager that holds two records, the first with an executable path. *)
Definition holding : ProcessManager.state :=
  {| ProcessManager.store :=
       [<["exe" := VStr "/usr/bin/foo"]> (observed 7 "foo"); observed 8 "bar"];
     ProcessManager.self :=
       {| ProcessManager.processes := [0; 1];
          ProcessManager.cache := ProcessCache.default;
          ProcessManager.last_full_update := 0;
          ProcessManager.dll := None |};
     ProcessManager.log := [] |}.

(** psutil answers every query. *)
Definition answering : World :=
  {| os_GetProcessesInfo := DllNull;
     os_FreeProcessInfoMemory := None;
     os_Process := λ _ _, inr busy;
     os_process_iter := [];
     os_time_update := 1000; os_time_done := 1000 |}.

End Scenario.

(** ** Further notions used in the statements *)

(** The record cached under an identity carries that identity. *)
Definition cache_ok (od : OrderedDict.t) (h : heap) : Prop :=
  ∀ k r, OrderedDict.get od k = Some r → has_pid h r k.

(** A record with an integer identity and exactly the keys of
    [record_keys]. *)
Definition full_record (d : pydict) : Prop :=
  (∃ pid, getitem_pid d = inr pid) ∧
  ∀ k, is_Some (d !! k) ↔ k ∈ record_keys.

(** What holds of the manager between two calls: its list names distinct
    objects of the store, every object of the store is a full record, the
    cache is that of [ProcessCache()] with at most 500 entries, and every
    cached record carries the identity it is cached under. *)
Definition manager_inv (s : ProcessManager.state) : Prop :=
  NoDup (ProcessManager.processes (ProcessManager.self s)) ∧
  (∀ r, r ∈ ProcessManager.processes (ProcessManager.self s) →
        r < length (ProcessManager.store s)) ∧
  Forall full_record (ProcessManager.store s) ∧
  cache_ok
    (ProcessCache._cache (ProcessManager.cache (ProcessManager.self s)))
    (ProcessManager.store s) ∧
  ProcessCache.max_size (ProcessManager.cache (ProcessManager.self s)) = 500%Z ∧
  length (ProcessCache._cache (ProcessManager.cache (ProcessManager.self s)))
    ≤ 500.

(** The entry's "pid", if it has one, is an integer. *)
Definition integer_pid (proc : pydict) : bool :=
  match proc !! "pid" with
  | Some (VInt _) | None => true
  | Some _ => false
  end.

(** The DLL reports integer pids: in the list it gives, if it gives one,
    every "pid" is an integer. *)
Definition integer_pids (w : World) : bool :=
  match os_GetProcessesInfo w with
  | DllJson (inr entries) => forallb integer_pid entries
  | _ => true
  end.

(** A call of the manager in a world whose DLL reports integer pids. *)
Definition integer_call (c : ProcessManager.call) : bool :=
  match c with
  | ProcessManager.GetProcesses w _ => integer_pids w
  | ProcessManager.KillProcess _ _ => true
  end.

(** The states the application brings the manager to while the DLL reports
    integer pids.  Besides calling the manager, [refresh_processes] hands
    the list [get_processes] returned, which is the manager's own list
    object when no filter is set, to [_sort_processes] (lines 337-353),
    which sorts it in place; of that sort only this much is used:
    [list.sort] leaves a reordering of the list, also when a key or a
    comparison raises. *)
Inductive reachable : ProcessManager.state → Prop :=
| reachable_init load : reachable (ProcessManager.init_state load)
| reachable_step s c :
    reachable s → integer_call c = true →
    reachable (ProcessManager.step s c)
| reachable_sort s l :
    reachable s →
    l ≡ₚ ProcessManager.processes (ProcessManager.self s) →
    reachable (ProcessManager.set_processes l s).

(** Lines 103-127: the identity of the record the loop appends for the
    entry at position [i] of the DLL's list, if it appends one. *)
Definition accepted (w : World) (i : nat) (proc : pydict) : option Z :=
  match proc !! "pid", proc !! "name", proc !! "memory_kb" with
  | Some (VInt pid), Some _, Some _ =>
      match os_Process w i pid with
      | inr _ => Some pid
      | inl e => if vanished_or_denied e then Some pid else None
      end
  | _, _, _ => None
  end.

(** The identities of the records the loop appends for [entries], whose
    first is at position [i], in the order of the entries. *)
Fixpoint accepted_pids (w : World) (i : nat) (entries : list pydict)
  : list Z :=
  match entries with
  | [] => []
  | proc :: rest =>
      match accepted w i proc with
      | Some pid => pid :: accepted_pids w (S i) rest
      | None => accepted_pids w (S i) rest
      end
  end.

(** ** [TaskManagerApp]: the histories behind the two charts *)

Module TaskManagerApp.

(** The attributes [update_charts] reads and writes. *)
Record t := mk {
  memory_history : list float;
  cpu_history : list float;
  update_time : float;
}.

(** What the world answers one call of [update_charts]: [time.time()],
    [psutil.cpu_percent()], whether the calls that redraw the CPU chart
    (lines 424-428) all return, and the [used] of
    [psutil.virtual_memory()]; [None] is a call that raises.  Whether the
    memory chart is redrawn changes nothing: these are the last calls, and
    what they raise is swallowed as everything else in the [try]. *)
Record Replies := {
  time_time : float;
  psutil_cpu_percent : option float;
  cpu_chart_drawn : bool;
  psutil_virtual_memory_used : option Z;
}.

(** [__init__], lines 192-194; [now] is [time.time()]. *)
Definition __init__ (now : float) : t :=
  {| memory_history := []; cpu_history := []; update_time := now |}.

(** [n / 1024] for an int [n]: the quotient rounded to the nearest float;
    [None] is the OverflowError of a quotient beyond the floats. *)
Definition int_truediv_1024 (n : Z) : option float :=
  match binary_normalize prec emax n (-10) false with
  | S754_infinity _ => None
  | q => Some (SF2Prim q)
  end.

(** [history.append(x)], then [history.pop(0)] if [len(history) > 60]. *)
Definition push (history : list float) (x : float) : list float :=
  let history := history ++ [x] in
  if 60 <? length history then drop 1 history else history.

(** [update_charts(self)], lines 410-443. *)
Definition update_charts (w : Replies) (self : t) : t :=
  let now := time_time w in
  if (now - update_time self <? 1)%float then self
  else
    let self := {| memory_history := memory_history self;
                   cpu_history := cpu_history self;
                   update_time := now |} in
    match psutil_cpu_percent w with
    | None => self
    | Some cpu_percent =>
        let self := {| memory_history := memory_history self;
                       cpu_history := push (cpu_history self) cpu_percent;
                       update_time := update_time self |} in
        if negb (cpu_chart_drawn w) then self
        else
          match psutil_virtual_memory_used w with
          | None => self
          | Some used =>
              match int_truediv_1024 used with
              | None => self
              | Some q =>
                  let used_mb := (q / 1024)%float in
                  {| memory_history := push (memory_history self) used_mb;
                     cpu_history := cpu_history self;
                     update_time := update_time self |}
              end
          end
    end.

(** The application calls [update_charts] again and again. *)
Definition run (ws : list Replies) (self : t) : t :=
  foldl (λ self w, update_charts w self) self ws.

End TaskManagerApp.

(** The last [n] elements of a list. *)
Definition lastn {A} (n : nat) (l : list A) : list A :=
  drop (length l - n) l.

(** The CPU samples of the calls of [update_charts] that pass the
    one-second throttle, [t] being the time of the last call that did. *)
Fixpoint cpu_samples (ws : list TaskManagerApp.Replies) (t : float)
  : list float :=
  match ws with
  | [] => []
  | w :: ws =>
      let now := TaskManagerApp.time_time w in
      if (now - t <? 1)%float then cpu_samples ws t
      else match TaskManagerApp.psutil_cpu_percent w with
           | Some x => x :: cpu_samples ws now
           | None => cpu_samples ws now
           end
  end.

(** The memory sample of a call of [update_charts], if it takes one. *)
Definition memory_sample (w : TaskManagerApp.Replies) : option float :=
  match TaskManagerApp.psutil_cpu_percent w,
        TaskManagerApp.cpu_chart_drawn w,
        TaskManagerApp.psutil_virtual_memory_used w with
  | Some _, true, Some used =>
      match TaskManagerApp.int_truediv_1024 used with
      | Some q => Some (q / 1024)%float
      | None => None
      end
  | _, _, _ => None
  end.

(** The memory samples of the calls that pass the throttle. *)
Fixpoint memory_samples (ws : list TaskManagerApp.Replies) (t : float)
  : list float :=
  match ws with
  | [] => []
  | w :: ws =>
      let now := TaskManagerApp.time_time w in
      if (now - t <? 1)%float then memory_samples ws t
      else match memory_sample w with
           | Some x => x :: memory_samples ws now
           | None => memory_samples ws now
           end
  end.

(** ** Further scenarios *)

Module Examples.

(** Seven records with the identities 1 to 7. *)
Definition store7 : heap :=
  [Scenario.observed 1 "a"; Scenario.observed 2 "b"; Scenario.observed 3 "c";
   Scenario.observed 4 "d"; Scenario.observed 5 "e"; Scenario.observed 6 "f";
   Scenario.observed 7 "g"].

(** A manager without the DLL after a first full refresh in which psutil
    listed one process. *)
Definition started : ProcessManager.state :=
  ProcessManager.step (ProcessManager.init_state (inl OSError))
    (ProcessManager.GetProcesses Scenario.dll_down true).

(** Four records, the first two with the same identity. *)
Definition store_dup : heap :=
  [Scenario.observed 1 "a"; Scenario.observed 1 "b"; Scenario.observed 2 "c";
   Scenario.observed 3 "d"].

(** The DLL lists the identity 10 and psutil answers for it, at time 1000. *)
Definition dll_answered : World :=
  {| os_GetProcessesInfo := DllJson (inr [Scenario.dll_item 10 "a" 5]);
     os_FreeProcessInfoMemory := None;
     os_Process := λ _ _, inr Scenario.busy;
     os_process_iter := [];
     os_time_update := 1000; os_time_done := 1000 |}.

(** One second later the DLL lists the identity 10 again, and psutil is
    denied access to the process. *)
Definition dll_denied : World :=
  {| os_GetProcessesInfo := DllJson (inr [Scenario.dll_item 10 "a" 5]);
     os_FreeProcessInfoMemory := None;
     os_Process := λ _ _, inl AccessDenied;
     os_process_iter := [];
     os_time_update := 1001; os_time_done := 1001 |}.

(** The manager, with the DLL, after a full refresh in [dll_answered]. *)
Definition answered : ProcessManager.state :=
  ProcessManager.step (ProcessManager.init_state (inr ProcessManager.ProcessInfo_dll))
    (ProcessManager.GetProcesses dll_answered true).

End Examples.

(** * Facts about the embedding *)

(** ** OrderedDict *)

Section OrderedDict_facts.
Import OrderedDict.

Lemma set_length od k v : length (set od k v) ≤ S (length od).
Proof.
  induction od as [|[k' v'] od IH]; simpl; [lia|].
  case_decide; simpl; lia.
Qed.

Lemma get_set od k v k' :
  get (set od k v) k' = if decide (k = k') then Some v else get od k'.
Proof.
  induction od as [|[k0 v0] od IH]; simpl.
  - repeat case_decide; congruence.
  - repeat (case_decide; simpl); subst; try congruence.
Qed.

Lemma get_None od k : get od k = None ↔ k ∉ keys od.
Proof.
  unfold keys. induction od as [|[k0 v0] od IH]; simpl.
  - split; [intros _; apply not_elem_of_nil | done].
  - rewrite not_elem_of_cons. case_decide as Hk; subst.
    + split; [done|]. by intros [? _].
    + rewrite IH. split; [by split|by intros [_ ?]].
Qed.

Lemma set_fresh od k v : k ∉ keys od → set od k v = od ++ [(k, v)].
Proof.
  unfold keys. induction od as [|[k0 v0] od IH]; simpl; [done|].
  rewrite not_elem_of_cons. intros [Hne Hk].
  case_decide; [congruence|]. by rewrite IH.
Qed.

End OrderedDict_facts.

(** ** ProcessCache.update and needs_full_update *)

Lemma copy_fields_lookup fields (cached proc : pydict) k :
  copy_fields fields cached proc !! k =
  if decide (k ∈ fields) then
    match cached !! k with Some v => Some v | None => proc !! k end
  else proc !! k.
Proof.
  unfold copy_fields. revert proc.
  induction fields as [|f fs IH]; intros proc; cbn [foldl].
  - case_decide as H; [by apply elem_of_nil in H|done].
  - rewrite IH. destruct (decide (k = f)) as [->|Hne].
    + rewrite (decide_True (P := f ∈ f :: fs)) by left.
      destruct (cached !! f) eqn:Hc.
      * rewrite lookup_insert_eq. by case_decide.
      * by case_decide.
    + assert (Hiff : k ∈ f :: fs ↔ k ∈ fs).
      { rewrite elem_of_cons. split; [by intros [?|?]|by right]. }
      assert (Hstep : match cached !! f with
                      | Some v => <[f:=v]> proc
                      | None => proc
                      end !! k = proc !! k).
      { destruct (cached !! f); [by rewrite lookup_insert_ne|done]. }
      rewrite Hstep. repeat case_decide; tauto.
Qed.

Section ProcessCache_facts.
Import ProcessCache.

Section carry.
Context (self : t) (current_time : float).

Lemma carry_over_length h pid proc :
  length (carry_over self current_time h pid proc) = length h.
Proof.
  unfold carry_over. destruct (OrderedDict.get _ _); [|done].
  destruct (in_window _ _); [|done]. apply length_insert.
Qed.

Lemma carry_over_other h pid proc r :
  r ≠ proc → carry_over self current_time h pid proc !!! r = h !!! r.
Proof.
  intros Hne. unfold carry_over. destruct (OrderedDict.get _ _); [|done].
  destruct (in_window _ _); [|done]. by rewrite list_lookup_total_insert_ne.
Qed.

(** What the loop body leaves in the observed record. *)
Lemma carry_over_self h pid proc :
  proc < length h →
  carry_over self current_time h pid proc !!! proc =
  match OrderedDict.get (_cache self) pid with
  | Some cached =>
      if in_window self current_time
      then copy_fields _static_fields (h !!! cached) (h !!! proc)
      else h !!! proc
  | None => h !!! proc
  end.
Proof.
  intros Hlt. unfold carry_over. destruct (OrderedDict.get _ _); [|done].
  destruct (in_window _ _); [|done]. by rewrite list_lookup_total_insert_eq.
Qed.

Lemma carry_over_lookup h pid proc r k :
  k ∉ _static_fields →
  (carry_over self current_time h pid proc !!! r) !! k = (h !!! r) !! k.
Proof.
  intros Hk. destruct (decide (r = proc)) as [->|Hne];
    [|by rewrite carry_over_other].
  destruct (decide (proc < length h)) as [Hlt|Hge].
  - rewrite carry_over_self by done. destruct (OrderedDict.get _ _); [|done].
    destruct (in_window _ _); [|done].
    rewrite copy_fields_lookup. by rewrite decide_False.
  - unfold carry_over. destruct (OrderedDict.get _ _); [|done].
    destruct (in_window _ _); [|done]. rewrite list_insert_ge; [done|lia].
Qed.

End carry.

Lemma getitem_pid_valid (h : heap) r pid :
  getitem_pid (h !!! r) = inr pid → r < length h.
Proof.
  intros H. destruct (decide (r < length h)) as [|Hge]; [done|].
  rewrite list_lookup_total_alt, lookup_ge_None_2 in H by lia.
  discriminate.
Qed.

Lemma has_pid_ext (h h1 : heap) l pids :
  (∀ r, r ∈ l → h1 !!! r = h !!! r) →
  Forall2 (has_pid h) l pids → Forall2 (has_pid h1) l pids.
Proof.
  intros Hext H. induction H as [|r pid l pids Hr _ IH]; constructor.
  - unfold has_pid in *. rewrite Hext; [done|left].
  - apply IH. intros r' ?. apply Hext. by right.
Qed.

Section loop.
Context (self : t) (current_time : float).

(** The loop of [update] on distinct objects that all have an identity: it
    returns after [n] iterations, having built the generation from the first
    [n] records; it stops early only when the generation is full, and not
    before; it touches no other object; and what it leaves in a record it
    reached is the merge of the prior generation's record into it, provided
    no observed object is one of the prior generation. *)
Lemma update_loop_spec ps : ∀ pids h nc,
  Forall2 (has_pid h) ps pids →
  NoDup ps →
  ∃ n h',
    update_loop self current_time ps h nc
      = (h', inr (OrderedDict.set_all nc (take n (zip pids ps)))) ∧
    n ≤ length ps ∧
    (n = length ps ∨
     (max_size self ≤ Z.of_nat (length (OrderedDict.set_all nc (take n (zip pids ps)))))%Z) ∧
    (∀ m, 0 < m < n →
       (Z.of_nat (length (OrderedDict.set_all nc (take m (zip pids ps)))) < max_size self)%Z) ∧
    length h' = length h ∧
    (∀ r, r ∉ take n ps → h' !!! r = h !!! r) ∧
    ((∀ k c, OrderedDict.get (_cache self) k = Some c → c ∉ ps) →
     ∀ i proc pid, i < n → ps !! i = Some proc → pids !! i = Some pid →
       h' !!! proc =
       match OrderedDict.get (_cache self) pid with
       | Some cached =>
           if in_window self current_time
           then copy_fields _static_fields (h !!! cached) (h !!! proc)
           else h !!! proc
       | None => h !!! proc
       end).
Proof.
  induction ps as [|proc rest IH]; intros pids h nc Hpids Hnd.
  - exists 0, h. simpl. split_and!; try done; try lia.
  - destruct pids as [|pid pids']; [by apply Forall2_cons_nil_inv in Hpids|].
    apply Forall2_cons in Hpids as [Hpid Hrest].
    apply NoDup_cons in Hnd as [Hnotin Hnd].
    pose proof (getitem_pid_valid _ _ _ Hpid) as Hlt.
    cbn [update_loop]. unfold has_pid in Hpid. rewrite Hpid.
    set (h1 := carry_over self current_time h pid proc).
    set (nc1 := OrderedDict.set nc pid proc).
    destruct (max_size self <=? Z.of_nat (length nc1))%Z eqn:Hfull.
    + exists 1, h1. apply Z.leb_le in Hfull.
      split_and!; try done.
      * simpl; lia.
      * right. done.
      * intros m ?; lia.
      * apply carry_over_length.
      * intros r Hr. apply carry_over_other. set_solver.
      * intros _ i proc' pid' Hi Hp Hq. assert (i = 0) as -> by lia.
        simpl in Hp, Hq. simplify_eq. by apply carry_over_self.
    + apply Z.leb_gt in Hfull.
      assert (Hother : ∀ r, r ≠ proc → h1 !!! r = h !!! r)
        by (intros r ?; by apply carry_over_other).
      destruct (IH pids' h1 nc1) as
        (n & h' & Heq & Hn & Hstop & Hmin & Hlen & Hframe & Hcont);
        [|done|].
      { apply (has_pid_ext h); [|done]. intros r Hr. apply Hother.
        intros ->. done. }
      exists (S n), h'. cbn [zip zip_with take]. 
      assert (Hstep : ∀ l, OrderedDict.set_all nc ((pid, proc) :: l)
                = OrderedDict.set_all nc1 l) by done.
      rewrite !Hstep.
      split_and!; try done.
      * simpl; lia.
      * destruct Hstop as [->|?]; [by left|by right].
      * intros [|m] Hm; [lia|]. cbn [zip zip_with take]. rewrite Hstep.
        destruct m as [|m]; [done|]. apply Hmin. lia.
      * rewrite Hlen. apply carry_over_length.
      * intros r Hr. apply not_elem_of_cons in Hr as [Hne Hr].
        rewrite Hframe by done. by apply Hother.
      * intros Hdisj [|i] proc' pid' Hi Hp Hq; simpl in Hp, Hq.
        -- injection Hp as <-. injection Hq as <-.
           rewrite Hframe. { by apply carry_over_self. }
           intros Hin. apply Hnotin. by eapply subseteq_take.
        -- assert (proc' ∈ rest) by (by eapply list_elem_of_lookup_2).
           assert (proc' ≠ proc) by (intros ->; done).
           assert (Hdisj' : ∀ k c,
                      OrderedDict.get (_cache self) k = Some c → c ∉ rest).
           { intros k c Hk Hin. eapply Hdisj; [done|by right]. }
           rewrite (Hcont Hdisj' i proc' pid') by (done || lia).
           rewrite (Hother proc') by done.
           destruct (OrderedDict.get (_cache self) pid') as [cached|] eqn:Hget;
             [|done].
           rewrite (Hother cached); [done|].
           intros ->. eapply Hdisj; [done|left].
Qed.

End loop.

Lemma set_all_snoc od l k v :
  OrderedDict.set_all od (l ++ [(k, v)]) = OrderedDict.set (OrderedDict.set_all od l) k v.
Proof. unfold OrderedDict.set_all. by rewrite foldl_app. Qed.

Lemma set_all_distinct l : NoDup l.*1 → OrderedDict.set_all [] l = l.
Proof.
  induction l as [|[k v] l IH] using rev_ind; [done|].
  rewrite fmap_app, NoDup_app. intros (Hl & Hk & _).
  rewrite set_all_snoc, IH by done.
  apply set_fresh. intros Hin. apply (Hk k Hin). simpl. left.
Qed.

Section update.
Context (self : t) (current_time : float).

Lemma update_loop_size ps : ∀ h nc h' nc',
  (Z.of_nat (length nc) < Z.max 1 (max_size self))%Z →
  update_loop self current_time ps h nc = (h', inr nc') →
  (Z.of_nat (length nc') ≤ Z.max 1 (max_size self))%Z.
Proof.
  induction ps as [|proc rest IH]; intros h nc h' nc' Hlt; cbn [update_loop].
  - intros [= _ <-]. lia.
  - destruct (getitem_pid (h !!! proc)) as [e|pid]; [done|].
    pose proof (set_length nc pid proc) as Hset.
    destruct (max_size self <=? _)%Z eqn:Hfull.
    + intros [= _ <-]. lia.
    + apply Z.leb_gt in Hfull. apply IH. lia.
Qed.

(** The size of the new generation: at most [max_size], or one when
    [max_size] is below one. *)
Lemma update_cache_size h ps h' c' l :
  update self h ps current_time = (h', inr (c', l)) →
  (Z.of_nat (length (_cache c')) ≤ Z.max 1 (max_size self))%Z.
Proof.
  unfold update.
  destruct (update_loop self current_time ps h []) as [h1 [e|nc]] eqn:Hloop;
    [done|].
  intros [= _ <- _]. simpl. eapply update_loop_size; [|done]. simpl. lia.
Qed.

Lemma update_returns_input h ps h' c' l :
  update self h ps current_time = (h', inr (c', l)) → l = ps.
Proof.
  unfold update. destruct (update_loop _ _ _ _ _) as [h1 [e|nc]]; [done|].
  by intros [= _ _ <-].
Qed.

End update.

Lemma has_pid_NoDup h ps pids :
  Forall2 (has_pid h) ps pids → NoDup pids → NoDup ps.
Proof.
  intros H. induction H as [|proc pid ps pids Hp Hrest IH]; [constructor|].
  rewrite !NoDup_cons. intros [Hnotin Hnd]. split; [|by apply IH].
  intros Hin. apply Hnotin.
  apply list_elem_of_lookup_1 in Hin as [i Hi].
  destruct (Forall2_lookup_l _ _ _ _ _ Hrest Hi) as (pid' & Hi' & Hp').
  unfold has_pid in *. rewrite Hp in Hp'. injection Hp' as <-.
  by eapply list_elem_of_lookup_2.
Qed.

Lemma take_zip_distinct (pids : list Z) (ps : list ref) m :
  length ps = length pids → NoDup pids →
  OrderedDict.set_all [] (take m (zip pids ps)) = take m (zip pids ps).
Proof.
  intros Hlen Hnd. apply set_all_distinct.
  rewrite fmap_take, fst_zip by lia.
  eapply sublist_NoDup; [|apply sublist_take]; done.
Qed.

(** Claim C1.  The size invariant fails for a capacity below one: with
    [max_size <= 0] and at least one observed record, [update] returns with
    exactly one entry in the new generation, which is more than the capacity.
    The loop tests the size only after it has inserted. *)
Theorem update_overflows_nonpositive_capacity self h proc rest pid current_time :
  (max_size self ≤ 0)%Z →
  has_pid h proc pid →
  ∃ h' c',
    update self h (proc :: rest) current_time = (h', inr (c', proc :: rest)) ∧
    _cache c' = [(pid, proc)] ∧
    (max_size c' < Z.of_nat (length (_cache c')))%Z.
Proof.
  intros Hcap Hpid. unfold update. cbn [update_loop].
  unfold has_pid in Hpid. rewrite Hpid. cbn [OrderedDict.set length].
  rewrite (proj2 (Z.leb_le _ _)) by lia.
  eexists _, _. split_and!; [done|done|]. simpl. lia.
Qed.

Section claims.
Context (self : t) (current_time : float).

(** Claim C2, as amended.  [update] returns the list it was given, and there
    is a cut [n]: the new generation is built from the first [n] observed
    records, and either [n] is the whole list or the generation reached the
    capacity at the [n]-th record and not before.  A record before the cut
    carries every static field that the prior generation's record for its
    identity holds exactly when that identity is in the prior generation and
    [current_time - _last_update < 2.0]; otherwise, and for every record from
    the cut on, the record is as it was observed.  The observed records are
    distinct objects with an integer identity, and none of them is an object
    of the prior generation. *)
Theorem update_carries_static_fields h ps pids :
  Forall2 (has_pid h) ps pids →
  NoDup ps →
  (∀ k c, OrderedDict.get (_cache self) k = Some c → c ∉ ps) →
  ∃ h' c' n,
    update self h ps current_time = (h', inr (c', ps)) ∧
    _cache c' = OrderedDict.set_all [] (take n (zip pids ps)) ∧
    (n = length ps ∨ (max_size self ≤ Z.of_nat (length (_cache c')))%Z) ∧
    (∀ m, 0 < m < n →
       (Z.of_nat (length (OrderedDict.set_all [] (take m (zip pids ps))))
        < max_size self)%Z) ∧
    ∀ i proc pid, ps !! i = Some proc → pids !! i = Some pid →
      if decide (i < n) then
        match OrderedDict.get (_cache self) pid with
        | Some cached =>
            if (current_time - _last_update self <? 2)%float
            then ∀ field,
                   (h' !!! proc) !! field =
                   match (h !!! cached) !! field with
                   | Some v => if decide (field ∈ _static_fields) then Some v
                               else (h !!! proc) !! field
                   | None => (h !!! proc) !! field
                   end
            else h' !!! proc = h !!! proc
        | None => h' !!! proc = h !!! proc
        end
      else h' !!! proc = h !!! proc.
Proof.
  intros Hpids Hnd Hdisj.
  destruct (update_loop_spec self current_time ps pids h [] Hpids Hnd)
    as (n & h' & Heq & Hn & Hstop & Hmin & _ & Hframe & Hcont).
  eexists h', _, n. unfold update. rewrite Heq. split_and!; [done..|].
  intros i proc pid Hp Hq. case_decide as Hi.
  - rewrite (Hcont Hdisj i proc pid) by done.
    destruct (OrderedDict.get (_cache self) pid) as [cached|]; [|done].
    fold (in_window self current_time).
    destruct (in_window self current_time); [|done].
    intros field. rewrite copy_fields_lookup.
    destruct ((h !!! cached) !! field); by case_decide.
  - apply Hframe. intros Hin. apply elem_of_take in Hin as (j & Hj & Hlt).
    pose proof (NoDup_lookup _ _ _ _ Hnd Hp Hj). lia.
Qed.

(** Claim C4, as amended.  For observed records with pairwise distinct
    identities and a capacity of at least one, [update] returns the very
    list it was given, the new generation holds the first [max_size] records
    in input order under their identities, and the identity of a record at a
    position from [max_size] on is not in the cache. *)
Theorem update_returns_all_caches_prefix h ps pids :
  (1 ≤ max_size self)%Z →
  Forall2 (has_pid h) ps pids →
  NoDup pids →
  ∃ h' c',
    update self h ps current_time = (h', inr (c', ps)) ∧
    _cache c' = take (Z.to_nat (max_size self)) (zip pids ps) ∧
    (∀ i pid, Z.to_nat (max_size self) ≤ i → pids !! i = Some pid →
              OrderedDict.get (_cache c') pid = None).
Proof.
  intros Hcap Hpids Hnd.
  pose proof (Forall2_length _ _ _ Hpids) as Hlen.
  destruct (update_loop_spec self current_time ps pids h [] Hpids)
    as (n & h' & Heq & Hn & Hstop & Hmin & _);
    [by eapply has_pid_NoDup|].
  assert (Hsize : ∀ m, m ≤ length ps →
            length (OrderedDict.set_all [] (take m (zip pids ps))) = m).
  { intros m Hm. rewrite take_zip_distinct by done.
    rewrite length_take, length_zip_with. lia. }
  assert (Hcut : take n (zip pids ps)
                 = take (Z.to_nat (max_size self)) (zip pids ps)).
  { destruct (decide (Z.to_nat (max_size self) ≤ length ps)) as [Hle|Hgt].
    - f_equal. destruct (decide (Z.to_nat (max_size self) < n)) as [Hlt|].
      + specialize (Hmin (Z.to_nat (max_size self))).
        rewrite Hsize in Hmin by done. lia.
      + destruct Hstop as [->|Hfull]; [lia|].
        rewrite Hsize in Hfull by done. lia.
    - assert (n = length ps) as ->.
      { destruct Hstop as [->|Hfull]; [done|].
        rewrite Hsize in Hfull by done. lia. }
      rewrite !take_ge; [done|rewrite length_zip_with; lia..]. }
  rewrite take_zip_distinct, Hcut in Heq by done.
  eexists h', _. unfold update. rewrite Heq. split_and!; [done|done|].
  intros i pid Hi Hpid. cbn [_cache]. apply get_None.
  unfold OrderedDict.keys. rewrite fmap_take, fst_zip by lia.
  intros Hin. apply elem_of_take in Hin as (j & Hj & Hlt).
  pose proof (NoDup_lookup _ _ _ _ Hnd Hpid Hj). lia.
Qed.

End claims.

(** binary64: subtracting zero from a time after 5.0 gives that time. *)
Lemma float_sub_zero (now : float) :
  (5 <? now)%float = true → (now - 0)%float = now.
Proof.
  intros H. rewrite ltb_spec in H.
  apply Prim2SF_inj. rewrite sub_spec.
  destruct (Prim2SF now); try (cbv in H; discriminate); reflexivity.
Qed.

(** Claim C3, as amended.  [needs_full_update] is true exactly when more
    than five identities appeared, or more than five vanished, or
    [now - _last_update > 5.0].  With no churn it is true at an elapsed time
    of 6.0 and also of 5.9, and false at 5.0; with six appeared identities it
    is true. *)
Theorem needs_full_update_rule self current_pids now :
  (needs_full_update self current_pids now = true ↔
     5 < size (current_pids ∖ cached_pids self) ∨
     5 < size (cached_pids self ∖ current_pids) ∨
     (5 <? now - _last_update self)%float = true) ∧
  (current_pids = cached_pids self →
     ((now - _last_update self)%float = 6%float →
        needs_full_update self current_pids now = true) ∧
     ((now - _last_update self)%float = 5.9%float →
        needs_full_update self current_pids now = true) ∧
     ((now - _last_update self)%float = 5%float →
        needs_full_update self current_pids now = false)) ∧
  (size (current_pids ∖ cached_pids self) = 6 →
     needs_full_update self current_pids now = true).
Proof.
  unfold needs_full_update. split_and!.
  - destruct (5 <? size (current_pids ∖ cached_pids self)) eqn:Hnew;
      [apply Nat.ltb_lt in Hnew; simpl; tauto|apply Nat.ltb_ge in Hnew].
    destruct (5 <? size (cached_pids self ∖ current_pids)) eqn:Hgone;
      [apply Nat.ltb_lt in Hgone; simpl; tauto|apply Nat.ltb_ge in Hgone].
    simpl. split; [tauto|]. intros [?|[?|?]]; [lia|lia|done].
  - intros ->. rewrite difference_diag_L, size_empty. simpl.
    split_and!; by intros ->.
  - by intros ->.
Qed.

(** Claim C10.  For a cache that was never updated, whatever its capacity
    and the current identities, [needs_full_update] is true when the clock
    reads more than 5.0. *)
Theorem needs_full_update_initially max_size current_pids now :
  (5 <? now)%float = true →
  needs_full_update (__init__ max_size) current_pids now = true.
Proof.
  intros Hnow. unfold needs_full_update.
  destruct (_ || _); [done|]. cbn [_last_update __init__].
  by rewrite float_sub_zero.
Qed.

Section frame.
Context (self : t) (current_time : float).

Lemma carry_over_cases h pid proc r :
  carry_over self current_time h pid proc !!! r = h !!! r ∨
  ∃ c, carry_over self current_time h pid proc !!! r
       = copy_fields _static_fields (h !!! c) (h !!! r).
Proof.
  destruct (decide (r = proc)) as [->|Hne];
    [|left; by apply carry_over_other].
  unfold carry_over.
  destruct (OrderedDict.get _ _) as [c|]; [|by left].
  destruct (in_window _ _); [|by left].
  destruct (decide (proc < length h)).
  - right. exists c. by rewrite list_lookup_total_insert_eq.
  - left. rewrite list_insert_ge; [done|lia].
Qed.

Lemma carry_over_is_Some h pid proc r k :
  is_Some ((h !!! r) !! k) →
  is_Some ((carry_over self current_time h pid proc !!! r) !! k).
Proof.
  intros Hk. destruct (carry_over_cases h pid proc r) as [->|[c ->]]; [done|].
  rewrite copy_fields_lookup. case_decide; [|done].
  destruct ((h !!! c) !! k); [by eexists|done].
Qed.

Lemma carry_over_never_has h pid proc k :
  never_has k h → never_has k (carry_over self current_time h pid proc).
Proof.
  intros Hk r. destruct (carry_over_cases h pid proc r) as [->|[c ->]]; [done|].
  rewrite copy_fields_lookup, !Hk. by case_decide.
Qed.

(** Whatever the lists and the store, the loop of [update] creates no
    object, changes no field outside the static ones, removes no key, and
    adds no key that no object had. *)
Lemma update_loop_frame ps : ∀ h nc h' res,
  update_loop self current_time ps h nc = (h', res) →
  length h' = length h ∧
  (∀ r k, k ∉ _static_fields → (h' !!! r) !! k = (h !!! r) !! k) ∧
  (∀ r k, is_Some ((h !!! r) !! k) → is_Some ((h' !!! r) !! k)) ∧
  (∀ k, never_has k h → never_has k h').
Proof.
  induction ps as [|proc rest IH]; intros h nc h' res; cbn [update_loop].
  - by intros [= <- _].
  - destruct (getitem_pid (h !!! proc)) as [e|pid]; [by intros [= <- _]|].
    set (h1 := carry_over self current_time h pid proc).
    assert (length h1 = length h ∧
            (∀ r k, k ∉ _static_fields → (h1 !!! r) !! k = (h !!! r) !! k) ∧
            (∀ r k, is_Some ((h !!! r) !! k) → is_Some ((h1 !!! r) !! k)) ∧
            (∀ k, never_has k h → never_has k h1)) as (H1 & H2 & H3 & H4).
    { split_and!.
      - apply carry_over_length.
      - intros r k Hk. by apply carry_over_lookup.
      - intros r k. apply carry_over_is_Some.
      - intros k. apply carry_over_never_has. }
    destruct (max_size self <=? _)%Z; [by intros [= <- _]|].
    intros Hloop. destruct (IH _ _ _ _ Hloop) as (I1 & I2 & I3 & I4).
    split_and!.
    + congruence.
    + intros r k Hk. rewrite I2, H2; done.
    + intros r k Hk. by apply I3, H3.
    + intros k Hk. by apply I4, H4.
Qed.

Lemma update_frame ps h h' res :
  update self h ps current_time = (h', res) →
  length h' = length h ∧
  (∀ r k, k ∉ _static_fields → (h' !!! r) !! k = (h !!! r) !! k) ∧
  (∀ r k, is_Some ((h !!! r) !! k) → is_Some ((h' !!! r) !! k)) ∧
  (∀ k, never_has k h → never_has k h').
Proof.
  unfold update.
  destruct (update_loop self current_time ps h []) as [h1 [e|nc]] eqn:Hloop;
    intros [= <- _]; by eapply update_loop_frame.
Qed.

(** [update] returns when every observed record has an identity and no
    object is listed twice. *)
Lemma update_returns ps pids h :
  Forall2 (has_pid h) ps pids → NoDup ps →
  ∃ h' c', update self h ps current_time = (h', inr (c', ps)).
Proof.
  intros Hpids Hnd.
  destruct (update_loop_spec self current_time ps pids h [] Hpids Hnd)
    as (n & h' & Heq & _).
  unfold update. rewrite Heq. by eexists _, _.
Qed.

End frame.

End ProcessCache_facts.

(** ** ProcessManager *)

Section ProcessManager_facts.
Import ProcessManager.

Lemma dict_update_lookup (d : pydict) items k :
  k ∉ items.*1 → dict_update d items !! k = d !! k.
Proof.
  unfold dict_update. revert d.
  induction items as [|[k' v] items IH]; intros d Hk; [done|].
  cbn [foldl]. rewrite fmap_cons, not_elem_of_cons in Hk.
  destruct Hk as [Hne Hk]. rewrite IH by done.
  by rewrite lookup_insert_ne.
Qed.

Lemma refresh_lookup d p k :
  k ∉ ["memory_kb"; "cpu_percent"; "status"] → refresh d p !! k = d !! k.
Proof. intros Hk. unfold refresh. by rewrite dict_update_lookup. Qed.

Section quick.
Context (w : World).

(** The loop of [_refresh_dynamic_data], whether it returns or raises. *)
Lemma refresh_loop_frame procs : ∀ i s,
  self (final (refresh_loop w i procs s)) = self s ∧
  length (store (final (refresh_loop w i procs s))) = length (store s) ∧
  ∀ proc k, k ∉ ["memory_kb"; "cpu_percent"; "status"] →
    (store (final (refresh_loop w i procs s)) !!! proc) !! k
    = (store s !!! proc) !! k.
Proof.
  induction procs as [|proc rest IH]; intros i s; cbn [refresh_loop].
  - done.
  - destruct (getitem_pid (store s !!! proc)) as [e|pid]; [done|].
    destruct (os_Process w i pid) as [e|p].
    + destruct (vanished_or_denied e); [|done].
      destruct (IH (S i) (emit (EvProcess pid) s)) as (I1 & I2 & I3). done.
    + match goal with |- context [refresh_loop w (S i) rest ?s2] =>
        destruct (IH (S i) s2) as (I1 & I2 & I3) end.
      rewrite I1, I2. cbn [store self set_store emit].
      split_and!; [done|apply length_insert|].
      intros r k Hk. rewrite I3 by done. cbn [store self set_store emit].
      destruct (decide (r = proc)) as [->|Hne];
        [|by rewrite list_lookup_total_insert_ne].
      destruct (decide (proc < length (store s))).
      * rewrite list_lookup_total_insert_eq by done. by apply refresh_lookup.
      * rewrite list_insert_ge; [done|lia].
Qed.

(** The same loop when every held record has an identity and every query is
    answered or raises NoSuchProcess or AccessDenied. *)
Lemma refresh_loop_spec procs : ∀ i s,
  NoDup procs →
  (∀ j proc, procs !! j = Some proc →
     ∃ pid, has_pid (store s) proc pid ∧
            ∀ e, os_Process w (i + j) pid = inl e → vanished_or_denied e = true) →
  ∃ s', refresh_loop w i procs s = Return tt s' ∧
    (∀ r, r ∉ procs → store s' !!! r = store s !!! r) ∧
    ∀ j proc pid, procs !! j = Some proc → has_pid (store s) proc pid →
      store s' !!! proc =
      match os_Process w (i + j) pid with
      | inr p => refresh (store s !!! proc) p
      | inl _ => store s !!! proc
      end.
Proof.
  induction procs as [|proc rest IH]; intros i s Hnd Hok; cbn [refresh_loop].
  - eexists. split_and!; [done|done|]. intros j ?? Hj. done.
  - apply NoDup_cons in Hnd as [Hnotin Hnd].
    destruct (Hok 0 proc eq_refl) as (pid & Hpid & Hexn).
    rewrite Nat.add_0_r in Hexn.
    pose proof (getitem_pid_valid _ _ _ Hpid) as Hlt.
    unfold has_pid in Hpid. rewrite Hpid.
    set (s1 := emit (EvProcess pid) s).
    set (s2 := match os_Process w i pid with
               | inr p => set_store (<[proc := refresh (store s !!! proc) p]> (store s)) s1
               | inl _ => s1
               end).
    assert (Hother : ∀ r, r ≠ proc → store s2 !!! r = store s !!! r).
    { intros r Hne. unfold s2. destruct (os_Process w i pid); [done|].
      cbn [store set_store]. by rewrite list_lookup_total_insert_ne. }
    assert (Hself : store s2 !!! proc =
                    match os_Process w i pid with
                    | inr p => refresh (store s !!! proc) p
                    | inl _ => store s !!! proc
                    end).
    { unfold s2. destruct (os_Process w i pid); [done|].
      cbn [store set_store]. by rewrite list_lookup_total_insert_eq. }
    destruct (IH (S i) s2 Hnd) as (s' & Heq & Hframe & Hcont).
    { intros j proc' Hj. destruct (Hok (S j) proc' Hj) as (pid' & Hpid' & Hexn').
      exists pid'. split.
      - unfold has_pid. rewrite Hother; [done|].
        intros ->. apply Hnotin. by eapply list_elem_of_lookup_2.
      - by rewrite Nat.add_succ_r in Hexn'. }
    exists s'. split_and!.
    + unfold s2, s1 in Heq. destruct (os_Process w i pid) as [e|p]; [|done].
      by rewrite (Hexn e).
    + intros r Hr. apply not_elem_of_cons in Hr as [Hne Hr].
      rewrite Hframe by done. by apply Hother.
    + intros [|j] proc' pid' Hj Hpid'; simpl in Hj.
      * injection Hj as <-. unfold has_pid in Hpid'. rewrite Hpid in Hpid'.
        injection Hpid' as <-. rewrite Nat.add_0_r, Hframe by done. done.
      * assert (proc' ≠ proc).
        { intros ->. apply Hnotin. by eapply list_elem_of_lookup_2. }
        rewrite (Hcont j proc' pid' Hj), Nat.add_succ_r.
        { by rewrite Hother. }
        unfold has_pid. by rewrite Hother.
Qed.

End quick.

Lemma grows_refl s : grows s s [].
Proof. unfold grows. by rewrite !app_nil_r. Qed.

Lemma grows_emit s ev : grows s (emit ev s) [].
Proof. unfold grows. simpl. by rewrite !app_nil_r. Qed.

Lemma grows_append s d : grows s (append_new d s) [d].
Proof. done. Qed.

Lemma grows_trans s1 s2 s3 n1 n2 :
  grows s1 s2 n1 → grows s2 s3 n2 → grows s1 s3 (n1 ++ n2).
Proof.
  intros (A1 & A2 & A3 & A4 & A5) (B1 & B2 & B3 & B4 & B5).
  unfold grows. rewrite B1, B2, B3, B4, B5, A1, A2, A3, A4, A5.
  rewrite !length_app, seq_app, !app_assoc. done.
Qed.

Lemma not_record_key k :
  k ∉ record_keys →
  k ≠ "pid" ∧ k ≠ "name" ∧ k ≠ "memory_kb" ∧ k ≠ "cpu_percent" ∧
  k ≠ "status" ∧ k ≠ "username".
Proof.
  unfold record_keys. rewrite !not_elem_of_cons. tauto.
Qed.

Lemma new_proc_lookup pid name memory_kb :
  new_proc pid name memory_kb !! "pid" = Some pid ∧
  new_proc pid name memory_kb !! "name" = Some name ∧
  new_proc pid name memory_kb !! "memory_kb" = Some memory_kb ∧
  new_proc pid name memory_kb !! "cpu_percent" = Some (VFloat 0) ∧
  new_proc pid name memory_kb !! "status" = Some (VStr "running") ∧
  new_proc pid name memory_kb !! "username" = Some (VStr "N/A").
Proof. unfold new_proc. split_and!; by simplify_map_eq. Qed.

Lemma new_proc_other pid name memory_kb k :
  k ∉ record_keys → new_proc pid name memory_kb !! k = None.
Proof.
  intros (?&?&?&?&?&?)%not_record_key. unfold new_proc. by simplify_map_eq.
Qed.

Lemma enrich_lookup d p :
  enrich d p !! "cpu_percent" = Some (VFloat (pi_cpu_percent p)) ∧
  enrich d p !! "status" = Some (VStr (pi_status p)) ∧
  enrich d p !! "username" = Some (or_NA (pi_username p)) ∧
  ∀ k, k ∉ ["cpu_percent"; "status"; "username"] → enrich d p !! k = d !! k.
Proof.
  unfold enrich, dict_update. cbn [foldl fst snd].
  split_and!; try by simplify_map_eq.
  intros k. rewrite !not_elem_of_cons. intros (?&?&?&_). by simplify_map_eq.
Qed.

Lemma iter_record_lookup proc rss :
  iter_record proc rss !! "pid" = Some (VInt (info_pid proc)) ∧
  iter_record proc rss !! "name" = Some (opt_str (info_name proc)) ∧
  iter_record proc rss !! "memory_kb" = Some (VInt (rss `div` 1024)) ∧
  iter_record proc rss !! "cpu_percent"
    = Some (opt_float (info_cpu_percent proc)) ∧
  iter_record proc rss !! "status" = Some (opt_str (info_status proc)) ∧
  iter_record proc rss !! "username" = Some (or_NA (info_username proc)).
Proof. unfold iter_record. split_and!; by simplify_map_eq. Qed.

Lemma iter_record_other proc rss k :
  k ∉ record_keys → iter_record proc rss !! k = None.
Proof.
  intros (?&?&?&?&?&?)%not_record_key. unfold iter_record. by simplify_map_eq.
Qed.

Lemma built_new_proc p name memory_kb : built (new_proc (VInt p) name memory_kb).
Proof.
  split; [|apply new_proc_other]. exists p. unfold getitem_pid.
  by rewrite (proj1 (new_proc_lookup _ _ _)).
Qed.

Lemma built_enrich d p : built d → built (enrich d p).
Proof.
  intros [[pid Hpid] Hother].
  destruct (enrich_lookup d p) as (_ & _ & _ & Hframe). split.
  - exists pid. unfold getitem_pid in *. rewrite Hframe; [done|].
    rewrite !not_elem_of_cons. split_and!; try done. apply not_elem_of_nil.
  - intros k Hk. rewrite Hframe; [by apply Hother|].
    apply not_record_key in Hk as (?&?&?&?&?&?).
    rewrite !not_elem_of_cons. split_and!; try done. apply not_elem_of_nil.
Qed.

Lemma built_iter_record proc rss : built (iter_record proc rss).
Proof.
  split; [|apply iter_record_other]. exists (info_pid proc).
  unfold getitem_pid. by rewrite (proj1 (iter_record_lookup _ _)).
Qed.

Section bulk.
Context (w : World).

Lemma dll_entry_spec i proc s :
  ∃ news evs,
    grows s (dll_entry w i proc s) news ∧
    log (dll_entry w i proc s) = log s ++ evs ∧
    Forall is_query evs ∧
    Forall built news ∧
    ∀ p name memory_kb,
      proc !! "pid" = Some (VInt p) → proc !! "name" = Some name →
      proc !! "memory_kb" = Some memory_kb →
      match os_Process w i p with
      | inr info => news = [enrich (new_proc (VInt p) name memory_kb) info]
      | inl e => vanished_or_denied e = true →
                 news = [new_proc (VInt p) name memory_kb]
      end.
Proof.
  assert (Hskip : ∀ s', s' = s →
    (∀ p name memory_kb,
      proc !! "pid" = Some (VInt p) → proc !! "name" = Some name →
      proc !! "memory_kb" = Some memory_kb → False) →
    ∃ news evs, grows s s' news ∧ log s' = log s ++ evs ∧
      Forall is_query evs ∧ Forall built news ∧
      ∀ p name memory_kb,
        proc !! "pid" = Some (VInt p) → proc !! "name" = Some name →
        proc !! "memory_kb" = Some memory_kb →
        match os_Process w i p with
        | inr info => news = [enrich (new_proc (VInt p) name memory_kb) info]
        | inl e => vanished_or_denied e = true →
                   news = [new_proc (VInt p) name memory_kb]
        end).
  { intros s' -> Hno. exists [], []. rewrite app_nil_r.
    split_and!; [apply grows_refl|done|done|done|].
    intros p name mem ???. by destruct (Hno p name mem). }
  unfold dll_entry.
  destruct (proc !! "pid") as [pid|] eqn:Hpid;
    [|apply Hskip; [done|intros ??? [=]]].
  destruct (proc !! "name") as [name|] eqn:Hname;
    [|apply Hskip; [done|intros ??? _ [=]]].
  destruct (proc !! "memory_kb") as [mem|] eqn:Hmem;
    [|apply Hskip; [done|intros ??? _ _ [=]]].
  destruct pid as [|p|f|str]; try (apply Hskip; [done|intros ??? [=]]).
  destruct (os_Process w i p) as [e|info] eqn:Hq.
  - destruct (vanished_or_denied e) eqn:He.
    + exists [new_proc (VInt p) name mem], [EvProcess p].
      split_and!; [done|done|..].
      * constructor; [by exists p|done].
      * constructor; [apply built_new_proc|done].
      * intros p' name' mem' [= <-] [= <-] [= <-]. by rewrite Hq.
    + exists [], [EvProcess p].
      split_and!; [apply grows_emit|done|..|done|].
      * constructor; [by exists p|done].
      * intros p' name' mem' [= <-] [= <-] [= <-]. rewrite Hq. congruence.
  - exists [enrich (new_proc (VInt p) name mem) info], [EvProcess p].
    split_and!; [done|done|..].
    + constructor; [by exists p|done].
    + constructor; [apply built_enrich, built_new_proc|done].
    + intros p' name' mem' [= <-] [= <-] [= <-]. by rewrite Hq.
Qed.

(** The loop over the DLL's entries appends fresh records and logs only
    per-identity queries; a well-formed entry whose query is answered, or
    raises NoSuchProcess or AccessDenied, has its record among them. *)
Lemma dll_loop_spec entries : ∀ i s,
  ∃ news evs,
    grows s (dll_loop w i entries s) news ∧
    log (dll_loop w i entries s) = log s ++ evs ∧
    Forall is_query evs ∧
    Forall built news ∧
    ∀ j proc p name memory_kb,
      entries !! j = Some proc →
      proc !! "pid" = Some (VInt p) → proc !! "name" = Some name →
      proc !! "memory_kb" = Some memory_kb →
      match os_Process w (i + j) p with
      | inr info => enrich (new_proc (VInt p) name memory_kb) info ∈ news
      | inl e => vanished_or_denied e = true →
                 new_proc (VInt p) name memory_kb ∈ news
      end.
Proof.
  induction entries as [|proc rest IH]; intros i s; cbn [dll_loop].
  - exists [], []. rewrite app_nil_r.
    split_and!; [apply grows_refl|done..].
  - destruct (dll_entry_spec i proc s) as (n1 & e1 & G1 & L1 & Q1 & B1 & C1).
    destruct (IH (S i) (dll_entry w i proc s))
      as (n2 & e2 & G2 & L2 & Q2 & B2 & C2).
    exists (n1 ++ n2), (e1 ++ e2). split_and!.
    + by eapply grows_trans.
    + by rewrite L2, L1, app_assoc.
    + by apply Forall_app.
    + by apply Forall_app.
    + intros [|j] proc' p name mem Hj Hp Hn Hm; simpl in Hj.
      * injection Hj as <-. rewrite Nat.add_0_r.
        specialize (C1 p name mem Hp Hn Hm).
        destruct (os_Process w i p); [intros He|]; rewrite C1 by done;
          apply elem_of_app; left; left.
      * specialize (C2 j proc' p name mem Hj Hp Hn Hm).
        rewrite Nat.add_succ_r. change (S i + j) with (S (i + j)) in C2.
        destruct (os_Process w (S (i + j)) p); [intros He|];
          apply elem_of_app; right; auto.
Qed.

End bulk.

(** The loop over [psutil.process_iter] appends fresh records and logs
    nothing; when every item has its [memory_info] it returns, with one
    record per item. *)
Lemma iter_loop_spec items : ∀ s,
  ∃ news,
    grows s (final (iter_loop items s)) news ∧
    log (final (iter_loop items s)) = log s ∧
    Forall built news ∧
    ∀ sizes, Forall2 (λ it rss, info_memory_info it = Some rss) items sizes →
      iter_loop items s = Return tt (final (iter_loop items s)) ∧
      news = zip_with iter_record items sizes.
Proof.
  induction items as [|proc rest IH]; intros s; cbn [iter_loop].
  - exists []. split_and!; [apply grows_refl|done|done|].
    intros sizes ->%Forall2_nil_inv_l. done.
  - destruct (info_memory_info proc) as [rss|] eqn:Hrss.
    + destruct (IH (append_new (iter_record proc rss) s))
        as (news & G & L & B & C).
      exists (iter_record proc rss :: news). split_and!.
      * apply (grows_trans _ _ _ [_] news (grows_append _ _) G).
      * done.
      * constructor; [apply built_iter_record|done].
      * intros sizes (rss' & sizes' & Hr & Hrest & ->)%Forall2_cons_inv_l.
        rewrite Hrss in Hr. injection Hr as <-.
        destruct (C sizes' Hrest) as [-> ->]. done.
    + exists []. split_and!; [apply grows_refl|done|done|].
      intros sizes (rss' & sizes' & Hr & _)%Forall2_cons_inv_l.
      congruence.
Qed.

Lemma never_has_app k (h news : heap) :
  never_has k h → Forall (λ d, d !! k = None) news → never_has k (h ++ news).
Proof.
  intros Hh Hnews r. destruct (decide (r < length h)).
  - rewrite lookup_total_app_l by done. apply Hh.
  - rewrite lookup_total_app_r by lia.
    rewrite list_lookup_total_alt.
    destruct (news !! (r - length h)) as [d|] eqn:Hd; [|done].
    simpl. by apply (Forall_lookup_1 _ _ _ _ Hnews Hd).
Qed.

Lemma built_never_has k news :
  k ∉ record_keys → Forall built news → Forall (λ d : pydict, d !! k = None) news.
Proof.
  intros Hk Hb. eapply Forall_impl; [done|]. intros d [_ Hd]. by apply Hd.
Qed.

(** The fresh records have identities, at fresh references. *)
Lemma built_has_pid news : ∀ h0 : heap,
  Forall built news →
  ∃ pids, Forall2 (has_pid (h0 ++ news)) (seq (length h0) (length news)) pids.
Proof.
  induction news as [|d news IH]; intros h0 Hb; [by exists []|].
  apply Forall_cons in Hb as [[[pid Hpid] _] Hb].
  destruct (IH (h0 ++ [d]) Hb) as [pids Hpids].
  exists (pid :: pids). cbn [length seq]. constructor.
  - unfold has_pid. by rewrite list_lookup_total_middle.
  - rewrite <- app_assoc, length_app in Hpids. cbn [length app] in Hpids.
    by rewrite Nat.add_1_r in Hpids.
Qed.

Section full.
Context (w : World).

Lemma finish_full_frame s :
  log (final (finish_full w s)) = log s ∧
  dll (self (final (finish_full w s))) = dll (self s) ∧
  processes (self (final (finish_full w s))) = processes (self s) ∧
  length (store (final (finish_full w s))) = length (store s) ∧
  (∀ r k, k ∉ ProcessCache._static_fields →
     (store (final (finish_full w s)) !!! r) !! k = (store s !!! r) !! k) ∧
  (∀ r k, is_Some ((store s !!! r) !! k) →
     is_Some ((store (final (finish_full w s)) !!! r) !! k)) ∧
  (∀ k, never_has k (store s) → never_has k (store (final (finish_full w s)))).
Proof.
  unfold finish_full.
  destruct (ProcessCache.update _ _ _ _) as [h [e|[c l]]] eqn:Hupd;
    pose proof (update_frame _ _ _ _ _ _ Hupd) as (F1 & F2 & F3 & F4);
    cbn [final log self store dll processes set_store];
    split_and!; try done.
  by apply update_returns_input in Hupd.
Qed.

Lemma finish_full_grown s (h0 news : heap) :
  store s = h0 ++ news →
  processes (self s) = seq (length h0) (length news) →
  Forall built news →
  finish_full w s = Return (processes (self s)) (final (finish_full w s)).
Proof.
  intros Hstore Hprocs Hb.
  destruct (built_has_pid news h0 Hb) as [pids Hpids].
  rewrite <- Hstore, <- Hprocs in Hpids.
  destruct (update_returns (cache (self s)) (os_time_update w) _ _ _ Hpids)
    as (h' & c' & Hupd).
  { rewrite Hprocs. apply NoDup_seq. }
  unfold finish_full. by rewrite Hupd.
Qed.

(** [get_processes_from_dll] only logs its calls. *)
Lemma get_processes_from_dll_state s :
  ∃ evs,
    (get_processes_from_dll w s).2
      = {| store := store s; self := self s; log := log s ++ evs |} ∧
    match dll (self s) with
    | None => evs = [] ∧ (get_processes_from_dll w s).1 = []
    | Some _ => evs = [EvGetProcessesInfo] ∨
                evs = [EvGetProcessesInfo; EvFreeProcessInfoMemory]
    end.
Proof.
  unfold get_processes_from_dll. destruct s as [h m l].
  destruct (dll m) eqn:Hdll; cbn [self store log]; rewrite Hdll.
  - destruct (os_GetProcessesInfo w) as [e| |[e|entries]];
      try (exists [EvGetProcessesInfo]; split; [done|by left]).
    exists [EvGetProcessesInfo; EvFreeProcessInfoMemory].
    split; [|by right].
    destruct (os_FreeProcessInfoMemory w); unfold emit;
      cbn [snd log store self]; by rewrite <- app_assoc.
  - exists []. by rewrite app_nil_r.
Qed.

(** The two paths of a full refresh. *)
Lemma get_processes_full_eq s :
  get_processes w true s =
  match (get_processes_from_dll w s).1 with
  | _ :: _ =>
      finish_full w
        (dll_loop w 0 (get_processes_from_dll w s).1
           (set_processes [] (get_processes_from_dll w s).2))
  | [] =>
      match iter_loop (os_process_iter w)
              (emit EvProcessIter
                 (set_processes [] (get_processes_from_dll w s).2)) with
      | Return _ s => finish_full w s
      | Raise e s => Raise e s
      end
  end.
Proof.
  unfold get_processes.
  destruct (dll (self s)) eqn:Hdll.
  - by destruct (get_processes_from_dll w s) as [[|] ?].
  - unfold get_processes_from_dll. by rewrite Hdll.
Qed.

(** The quick refresh. *)
Lemma get_processes_quick_eq s :
  get_processes w false s =
  match refresh_loop w 0 (processes (self s)) s with
  | Return _ s => Return (processes (self s)) s
  | Raise e s => Raise e s
  end.
Proof. unfold get_processes. by destruct (dll (self s)). Qed.

End full.

Lemma refresh_loop_log w procs : ∀ i s,
  ∃ evs, log (final (refresh_loop w i procs s)) = log s ++ evs ∧
         Forall is_query evs.
Proof.
  induction procs as [|proc rest IH]; intros i s; cbn [refresh_loop].
  - exists []. by rewrite app_nil_r.
  - destruct (getitem_pid (store s !!! proc)) as [e|pid];
      [exists []; by rewrite app_nil_r|].
    assert (Hq : Forall is_query [EvProcess pid])
      by (constructor; [by exists pid|done]).
    destruct (os_Process w i pid) as [e|p].
    + destruct (vanished_or_denied e); [|by exists [EvProcess pid]].
      destruct (IH (S i) (emit (EvProcess pid) s)) as (evs & -> & Hevs).
      exists (EvProcess pid :: evs). cbn [emit log].
      split; [by rewrite <- app_assoc|by constructor; [exists pid|]].
    + match goal with |- context [refresh_loop w (S i) rest ?s2] =>
        destruct (IH (S i) s2) as (evs & -> & Hevs) end.
      exists (EvProcess pid :: evs). cbn [emit log set_store].
      split; [by rewrite <- app_assoc|by constructor; [exists pid|]].
Qed.

Lemma is_query_not_bulk evs :
  Forall is_query evs → EvGetProcessesInfo ∉ evs.
Proof.
  intros Hq Hin. rewrite Forall_forall in Hq.
  by destruct (Hq _ Hin) as [pid ?].
Qed.

(** What a call of [get_processes] does to the manager, the store's keys
    and the log, whether it returns or raises. *)
Lemma get_processes_effects w full_update s :
  dll (self (final (get_processes w full_update s))) = dll (self s) ∧
  (∀ k, k ∉ record_keys → never_has k (store s) →
        never_has k (store (final (get_processes w full_update s)))) ∧
  ∃ evs, log (final (get_processes w full_update s)) = log s ++ evs ∧
    (dll (self s) = None → EvGetProcessesInfo ∉ evs) ∧
    (is_Some (dll (self s)) → full_update = true →
       ∃ evs', evs = EvGetProcessesInfo :: evs').
Proof.
  destruct full_update.
  - rewrite get_processes_full_eq.
    destruct (get_processes_from_dll_state w s) as (e0 & Hs1 & He0).
    set (s1 := (get_processes_from_dll w s).2) in *.
    assert (Hbulk : (dll (self s) = None → EvGetProcessesInfo ∉ e0) ∧
                    (is_Some (dll (self s)) → ∃ e0', e0 = EvGetProcessesInfo :: e0')).
    { destruct (dll (self s)).
      - split; [done|]. intros _. destruct He0 as [->| ->]; by eexists.
      - destruct He0 as [-> _]. split; [intros _; apply not_elem_of_nil|].
        by intros [? ?]. }
    destruct Hbulk as [Hnone Hsome].
    destruct ((get_processes_from_dll w s).1) as [|entry entries] eqn:Hdata.
    + destruct (iter_loop_spec (os_process_iter w)
                  (emit EvProcessIter (set_processes [] s1)))
        as (news & (G1 & _ & _ & G4 & _) & L & B & _).
      set (r := iter_loop _ _) in *.
      assert (Hfin : ∃ s3, (final r = s3 ∨ final (finish_full w (final r)) = s3) ∧
                final match r with
                      | Return _ s0 => finish_full w s0
                      | Raise e s0 => Raise e s0
                      end = s3).
      { destruct r; eexists; (split; [|done]); [by right|by left]. }
      destruct Hfin as (s3 & Hs3 & ->).
      destruct (finish_full_frame w (final r)) as (F1 & F2 & _ & _ & _ & _ & F7).
      assert (dll (self s3) = dll (self s) ∧ log s3 = log (final r) ∧
              ∀ k, never_has k (store (final r)) → never_has k (store s3))
        as (D & L3 & N).
      { destruct Hs3 as [<-|<-].
        - split_and!; [|done..]. rewrite G4. cbn. by rewrite Hs1.
        - split_and!; [|done..]. rewrite F2, G4. cbn. by rewrite Hs1. }
      split_and!; [done|..].
      * intros k Hk Hnever. apply N. rewrite G1. cbn. rewrite Hs1. cbn.
        apply never_has_app; [done|by apply built_never_has].
      * exists (e0 ++ [EvProcessIter]). rewrite L3, L. cbn. rewrite Hs1. cbn.
        split_and!; [by rewrite app_assoc|..].
        -- intros Hd. rewrite elem_of_app, list_elem_of_singleton.
           intros [?|?]; [by apply Hnone|done].
        -- intros Hd _. destruct (Hsome Hd) as [e0' ->]. by eexists.
    + destruct (dll_loop_spec w (entry :: entries) 0 (set_processes [] s1))
        as (news & evs & (G1 & _ & _ & G4 & _) & L & Q & B & _).
      set (s2 := dll_loop _ _ _ _) in *.
      destruct (finish_full_frame w s2) as (F1 & F2 & _ & _ & _ & _ & F7).
      split_and!.
      * rewrite F2, G4. cbn. by rewrite Hs1.
      * intros k Hk Hnever. apply F7. rewrite G1. cbn. rewrite Hs1. cbn.
        apply never_has_app; [done|by apply built_never_has].
      * exists (e0 ++ evs). rewrite F1, L. cbn. rewrite Hs1. cbn.
        split_and!; [by rewrite app_assoc|..].
        -- intros Hd. rewrite elem_of_app.
           intros [?|?]; [by apply Hnone|by eapply is_query_not_bulk].
        -- intros Hd _. destruct (Hsome Hd) as [e0' ->]. by eexists.
  - rewrite get_processes_quick_eq.
    destruct (refresh_loop_frame w (processes (self s)) 0 s) as (R1 & _ & R3).
    destruct (refresh_loop_log w (processes (self s)) 0 s) as (evs & L & Q).
    set (r := refresh_loop _ _ _ _) in *.
    assert (Hfin : final match r with
                         | Return _ s0 => Return (processes (self s0)) s0
                         | Raise e s0 => Raise e s0
                         end = final r) by (by destruct r).
    rewrite Hfin. split_and!.
    + by rewrite R1.
    + intros k Hk Hnever proc. rewrite R3; [done|].
      apply not_record_key in Hk as (?&?&?&?&?&?).
      rewrite !not_elem_of_cons. split_and!; try done. apply not_elem_of_nil.
    + exists evs. split_and!; [done| |done].
      intros _. by apply is_query_not_bulk.
Qed.

(** A property that every call preserves holds after a run. *)
Lemma run_invariant (P : state → Prop) calls : ∀ s,
  P s → (∀ s c, P s → P (step s c)) → P (run calls s).
Proof.
  unfold run. induction calls as [|c calls IH]; intros s Hs Hstep; [done|].
  cbn [foldl]. apply IH; [by apply Hstep|done].
Qed.

Lemma kill_process_state os pid s :
  store (kill_process os pid s).2 = store s ∧
  self (kill_process os pid s).2 = self s.
Proof. by destruct os. Qed.

Lemma step_dll s c : dll (self (step s c)) = dll (self s).
Proof.
  destruct c as [w b|os pid]; cbn [step].
  - apply get_processes_effects.
  - by rewrite (proj2 (kill_process_state os pid s)).
Qed.

Lemma step_never_has s c k :
  k ∉ record_keys → never_has k (store s) → never_has k (store (step s c)).
Proof.
  destruct c as [w b|os pid]; cbn [step].
  - apply get_processes_effects.
  - by rewrite (proj1 (kill_process_state os pid s)).
Qed.

Lemma step_no_bulk_query s c :
  dll (self s) = None → EvGetProcessesInfo ∉ log s →
  EvGetProcessesInfo ∉ log (step s c).
Proof.
  intros Hdll Hlog. destruct c as [w b|os pid]; cbn [step].
  - destruct (get_processes_effects w b s) as (_ & _ & evs & -> & Hnone & _).
    rewrite elem_of_app. intros [?|?]; [done|by apply Hnone].
  - destruct os; cbn [kill_process snd emit log];
      rewrite !elem_of_app, !list_elem_of_singleton;
      [intros [[?|?]|?]|intros [[[?|?]|?]|?]|intros [[?|?]|?]]; done.
Qed.

(** Claim C5, as amended.  When the DLL failed to load, no run of the
    manager ever calls [GetProcessesInfo].  When it loaded, the handle stays
    for the whole run and every full refresh calls [GetProcessesInfo] first,
    whatever happened before; a full refresh in which the DLL gives no data
    goes on to enumerate through [psutil.process_iter], and leaves the handle
    in place. *)
Theorem bulk_backend_retried_unless_never_loaded :
  (∀ e calls, EvGetProcessesInfo ∉ log (run calls (init_state (inl e)))) ∧
  (∀ d calls w,
     dll (self (run calls (init_state (inr d)))) = Some d ∧
     ∃ evs, log (final (get_processes w true (run calls (init_state (inr d)))))
            = log (run calls (init_state (inr d))) ++ EvGetProcessesInfo :: evs) ∧
  (∀ s w d,
     dll (self s) = Some d →
     (get_processes_from_dll w s).1 = [] →
     dll (self (final (get_processes w true s))) = Some d ∧
     ∃ evs, log (final (get_processes w true s))
            = log s ++ EvGetProcessesInfo :: evs ++ [EvProcessIter]).
Proof.
  split_and!.
  - intros e calls.
    apply (run_invariant
             (λ s, dll (self s) = None ∧ EvGetProcessesInfo ∉ log s)).
    + split; [done|apply not_elem_of_nil].
    + intros s c [Hdll Hlog]. split; [by rewrite step_dll|].
      by apply step_no_bulk_query.
  - intros d calls w.
    assert (Hdll : dll (self (run calls (init_state (inr d)))) = Some d).
    { apply (run_invariant (λ s, dll (self s) = Some d)); [done|].
      intros s c Hs. by rewrite step_dll. }
    split; [done|].
    destruct (get_processes_effects w true (run calls (init_state (inr d))))
      as (_ & _ & evs & -> & _ & Hsome).
    destruct Hsome as [evs' ->]; [by rewrite Hdll|done|]. by eexists.
  - intros s w d Hdll Hno.
    split; [by rewrite (proj1 (get_processes_effects w true s))|].
    rewrite get_processes_full_eq, Hno.
    destruct (get_processes_from_dll_state w s) as (e0 & Hs1 & He0).
    rewrite Hdll in He0.
    destruct (iter_loop_spec (os_process_iter w)
                (emit EvProcessIter
                   (set_processes [] (get_processes_from_dll w s).2)))
      as (news & _ & L & _).
    set (r := iter_loop _ _) in *.
    assert (Hlog : log (final match r with
                               | Return _ s0 => finish_full w s0
                               | Raise e s0 => Raise e s0
                               end) = log (final r)).
    { destruct r; [|done]. apply finish_full_frame. }
    rewrite Hlog, L, Hs1. cbn [emit set_processes log].
    destruct He0 as [-> | ->]; rewrite <- app_assoc; by eexists.
Qed.

Lemma static_not_dynamic k :
  k ∈ ["memory_kb"; "cpu_percent"; "status"; "num_threads"] →
  k ∉ ProcessCache._static_fields.
Proof.
  unfold ProcessCache._static_fields. intros Hk.
  rewrite !elem_of_cons in Hk.
  destruct Hk as [->|[->|[->|[->|[]%elem_of_nil]]]];
    rewrite !not_elem_of_cons; split_and!; try done; apply not_elem_of_nil.
Qed.

(** Claim C6, as amended.  When the DLL is absent or gives no data, a full
    refresh enumerates through [psutil.process_iter] once and, when every
    item has its [memory_info], returns one record per item, in order.  Each
    record has the keys pid, name and username, and memory_kb, cpu_percent
    and status as read from the item; no record has num_threads.  A key
    outside [record_keys] that no object of the store had before is in no
    object after, and in no run of the manager does any object have such a
    key: exe, cwd, create_time and num_threads are never read. *)
Theorem fallback_records_have_six_fields :
  (∀ w s sizes,
     (get_processes_from_dll w s).1 = [] →
     Forall2 (λ it rss, info_memory_info it = Some rss)
       (os_process_iter w) sizes →
     ∃ l s',
       get_processes w true s = Return l s' ∧
       processes (self s') = l ∧
       length l = length (os_process_iter w) ∧
       log s' = log (get_processes_from_dll w s).2 ++ [EvProcessIter] ∧
       (∀ i proc it rss,
          l !! i = Some proc → os_process_iter w !! i = Some it →
          sizes !! i = Some rss →
          is_Some ((store s' !!! proc) !! "pid") ∧
          is_Some ((store s' !!! proc) !! "name") ∧
          is_Some ((store s' !!! proc) !! "username") ∧
          (store s' !!! proc) !! "memory_kb" = Some (VInt (rss `div` 1024)) ∧
          (store s' !!! proc) !! "cpu_percent"
            = Some (opt_float (info_cpu_percent it)) ∧
          (store s' !!! proc) !! "status" = Some (opt_str (info_status it)) ∧
          (store s' !!! proc) !! "num_threads" = None) ∧
       (∀ k, k ∉ record_keys → never_has k (store s) →
             never_has k (store s'))) ∧
  (∀ load calls k,
     k ∉ record_keys → never_has k (store (run calls (init_state load)))).
Proof.
  split.
  - intros w s sizes Hno Hsizes.
    rewrite get_processes_full_eq, Hno.
    destruct (get_processes_from_dll_state w s) as (e0 & Hs1 & _).
    set (s1 := (get_processes_from_dll w s).2) in *.
    set (s2 := emit EvProcessIter (set_processes [] s1)).
    destruct (iter_loop_spec (os_process_iter w) s2)
      as (news & (G1 & G2 & _) & L & B & C).
    destruct (C sizes Hsizes) as [Hret ->]. rewrite Hret.
    set (s3 := final (iter_loop (os_process_iter w) s2)) in *.
    cbn [s2 emit set_processes self processes store app] in G1, G2.
    rewrite (finish_full_grown w s3 _ _ G1 G2 B).
    destruct (finish_full_frame w s3) as (F1 & _ & F3 & _ & F5 & F6 & F7).
    set (s4 := final (finish_full w s3)) in *.
    assert (Hlen : length (zip_with iter_record (os_process_iter w) sizes)
                   = length (os_process_iter w)).
    { rewrite length_zip_with. apply Forall2_length in Hsizes. lia. }
    eexists _, s4. split_and!; [done|done|..].
    + by rewrite G2, length_seq.
    + by rewrite F1, L.
    + intros i proc it rss Hi Hit Hrss.
      rewrite G2 in Hi. apply lookup_seq in Hi as [-> Hlt].
      assert (Hrec : store s3 !!! (length (store s1) + i) = iter_record it rss).
      { rewrite G1, lookup_total_app_r by lia.
        replace (length (store s1) + i - length (store s1)) with i by lia.
        apply list_lookup_total_correct.
        rewrite lookup_zip_with, Hit. simpl. by rewrite Hrss. }
      destruct (iter_record_lookup it rss) as (R1 & R2 & R3 & R4 & R5 & R6).
      split_and!.
      * apply F6. rewrite Hrec, R1. by eexists.
      * apply F6. rewrite Hrec, R2. by eexists.
      * apply F6. rewrite Hrec, R6. by eexists.
      * rewrite F5, Hrec; [done|]. apply static_not_dynamic.
        by apply (bool_decide_unpack _).
      * rewrite F5, Hrec; [done|]. apply static_not_dynamic.
        by apply (bool_decide_unpack _).
      * rewrite F5, Hrec; [done|]. apply static_not_dynamic.
        by apply (bool_decide_unpack _).
      * rewrite F5, Hrec; [|apply static_not_dynamic; by apply (bool_decide_unpack _)].
        apply iter_record_other. unfold record_keys.
        rewrite !not_elem_of_cons. split_and!; try done. apply not_elem_of_nil.
    + intros k Hk Hnever. apply F7. rewrite G1.
      apply never_has_app; [|by apply built_never_has].
      by rewrite Hs1.
  - intros load calls k Hk.
    apply (run_invariant (λ s, never_has k (store s))).
    + intros r. cbn. by rewrite list_lookup_total_alt.
    + intros s c. by apply step_never_has.
Qed.

(** Claim C7.  A quick refresh, whether it returns or raises, leaves the
    manager (its list of records, its cache) as it was, returns that list,
    creates no object, and changes no field of any object other than
    memory_kb, cpu_percent and status. *)
Theorem quick_refresh_frame w s :
  self (final (get_processes w false s)) = self s ∧
  (∀ l s', get_processes w false s = Return l s' → l = processes (self s)) ∧
  length (store (final (get_processes w false s))) = length (store s) ∧
  (∀ proc field,
     field ∉ ["memory_kb"; "cpu_percent"; "status"] →
     (store (final (get_processes w false s)) !!! proc) !! field
     = (store s !!! proc) !! field).
Proof.
  rewrite get_processes_quick_eq.
  destruct (refresh_loop_frame w (processes (self s)) 0 s) as (R1 & R2 & R3).
  destruct (refresh_loop w 0 (processes (self s)) s) as [[] s'|e s'];
    cbn [final] in *; split_and!; try done.
  intros l s'' [= <- <-]. by rewrite R1.
Qed.

(** Claim C9.  [kill_process] returns, leaves the store and the manager as
    they were, and returns true exactly when the process was found and
    [terminate()] succeeded.  It calls [terminate()] at most once (never when
    the process could not be found) and never [kill()].  On a failure it
    returns false and its last act is [showerror] with the exception that was
    raised; on success it shows no error. *)
Theorem kill_process_reports os pid s :
  store (kill_process os pid s).2 = store s ∧
  self (kill_process os pid s).2 = self s ∧
  ((kill_process os pid s).1 = true ↔ os = Terminated) ∧
  ∃ evs,
    log (kill_process os pid s).2 = log s ++ evs ∧
    length (filter is_terminate evs) ≤ 1 ∧
    filter is_kill evs = [] ∧
    match os with
    | ProcessRaises e =>
        (kill_process os pid s).1 = false ∧
        filter is_terminate evs = [] ∧
        ∃ title text, last evs = Some (EvShowerror title text e)
    | TerminateRaises e =>
        (kill_process os pid s).1 = false ∧
        filter is_terminate evs = [EvTerminate pid] ∧
        ∃ title text, last evs = Some (EvShowerror title text e)
    | Terminated =>
        filter is_terminate evs = [EvTerminate pid] ∧
        ∀ title text e, EvShowerror title text e ∉ evs
    end.
Proof.
  set (showerror := EvShowerror "Ошибка" "Не удалось завершить процесс: ").
  destruct os as [e|e|]; cbn [kill_process fst snd emit store self log];
    (split_and!; [done|done|by split|]).
  - exists [EvProcess pid; showerror e]. rewrite <- app_assoc.
    split_and!; [done|cbv; lia|done|done|done|by eexists _, _].
  - exists [EvProcess pid; EvTerminate pid; showerror e].
    rewrite <- !app_assoc.
    split_and!; [done|cbv; lia|done|done|done|by eexists _, _].
  - exists [EvProcess pid; EvTerminate pid]. rewrite <- app_assoc.
    split_and!; [done|cbv; lia|done|done|].
    intros title text e. rewrite !elem_of_cons.
    intros [?|[?|[]%elem_of_nil]]; done.
Qed.

End ProcessManager_facts.

(** ** The scenarios *)

Section scenarios.
Import Scenario.

Section cache_scenarios.
Import ProcessCache.

(** Capacity 0, two observed records: one entry is cached. *)
Lemma update_overflows_capacity_zero :
  ∃ h' c',
    update (__init__ 0) store5 [0; 1] 100 = (h', inr (c', [0; 1])) ∧
    _cache c' = [(1%Z, 0)] ∧
    (max_size c' < Z.of_nat (length (_cache c')))%Z.
Proof.
  apply (update_overflows_nonpositive_capacity (__init__ 0) store5 0 [1] 1 100).
  - simpl. lia.
  - vm_compute. reflexivity.
Defined.

(** Capacity 1.  The cache saw identity 2 as "alpha" at time 100; at time
    101 the identities 1 and 2 are observed.  The loop stops after identity
    1, and the record of identity 2 keeps "beta" although its identity is in
    the prior generation and one second has passed. *)
Lemma update_skips_records_after_cut :
  (update (__init__ 1) store_cap1 [0] 100).2 = inr (cache_cap1, [0]) ∧
  has_pid store_cap1 2 2 ∧
  OrderedDict.get (_cache cache_cap1) 2 = Some 0 ∧
  (101 - _last_update cache_cap1 <? 2)%float = true ∧
  (store_cap1 !!! 0) !! "name" = Some (VStr "alpha") ∧
  (update cache_cap1 store_cap1 [1; 2] 101).2
    = inr ({| _cache := [(1%Z, 1)]; max_size := 1; _last_update := 101 |},
           [1; 2]) ∧
  ((update cache_cap1 store_cap1 [1; 2] 101).1 !!! 2) !! "name"
    = Some (VStr "beta").
Proof. split_and!; vm_compute; reflexivity. Qed.

(** Identity 42 cached as "alpha" at time 100 and observed as "beta": one
    second later the record comes back as "alpha", 2.5 seconds later as
    "beta". *)
Lemma update_keeps_cached_name_in_window :
  (∃ h' c', update cache42 store42 [1] 101 = (h', inr (c', [1])) ∧
            (h' !!! 1) !! "name" = Some (VStr "alpha")) ∧
  (∃ h' c', update cache42 store42 [1] 102.5 = (h', inr (c', [1])) ∧
            (h' !!! 1) !! "name" = Some (VStr "beta")).
Proof.
  assert (Hpids : Forall2 (has_pid store42) [1] [42%Z])
    by (repeat constructor).
  assert (Hnd : NoDup [1]) by (by apply (bool_decide_unpack _)).
  assert (Hdisj : ∀ k c, OrderedDict.get (_cache cache42) k = Some c → c ∉ [1]).
  { intros k c. simpl. case_decide; [|done]. intros [= <-].
    by apply (bool_decide_unpack _). }
  assert (Hcut : ∀ (c' : t) n,
            _cache c' = OrderedDict.set_all [] (take n (zip [42%Z] [1])) →
            n = length [1] ∨ (max_size cache42 ≤ Z.of_nat (length (_cache c')))%Z →
            n = 1).
  { intros c' n -> [->|Hfull]; [done|].
    destruct n as [|n]; simpl in Hfull; [lia|].
    rewrite take_nil in Hfull. simpl in Hfull. lia. }
  split.
  - destruct (update_carries_static_fields cache42 101 store42 [1] [42%Z]
                Hpids Hnd Hdisj)
      as (h' & c' & n & Hupd & Hcache & Hstop & _ & Hrec).
    exists h', c'. split; [done|].
    rewrite (Hcut c' n Hcache Hstop) in Hrec.
    apply (Hrec 0 1 42%Z eq_refl eq_refl "name").
  - destruct (update_carries_static_fields cache42 102.5 store42 [1] [42%Z]
                Hpids Hnd Hdisj)
      as (h' & c' & n & Hupd & Hcache & Hstop & _ & Hrec).
    exists h', c'. split; [done|].
    rewrite (Hcut c' n Hcache Hstop) in Hrec.
    by rewrite (Hrec 0 1 42%Z eq_refl eq_refl).
Defined.

(** No churn and an elapsed time of 5.9: a full update is due. *)
Lemma needs_full_update_true_at_5_9 :
  (7.9 - _last_update cache123 = 5.9)%float ∧
  cached_pids cache123 = {[1%Z; 2%Z; 3%Z]} ∧
  needs_full_update cache123 {[1%Z; 2%Z; 3%Z]} 7.9 = true.
Proof. vm_compute. split_and!; reflexivity. Qed.

(** Cached identities 1, 2, 3: six appeared identities make a full update
    due; with no churn it is due at an elapsed time of 6.0 and not at 5.0. *)
Lemma needs_full_update_examples :
  needs_full_update cache123
    {[1%Z; 2%Z; 9%Z; 10%Z; 11%Z; 12%Z; 13%Z; 14%Z]} 3 = true ∧
  needs_full_update cache123 (cached_pids cache123) 8 = true ∧
  needs_full_update cache123 (cached_pids cache123) 7 = false.
Proof.
  split_and!.
  - apply (proj2 (proj2 (needs_full_update_rule cache123 _ 3))).
    vm_compute. reflexivity.
  - apply (proj1 (proj1 (proj2 (needs_full_update_rule cache123 _ 8))
                      eq_refl)).
    vm_compute. reflexivity.
  - apply (proj2 (proj2 (proj1 (proj2 (needs_full_update_rule cache123 _ 7))
                             eq_refl))).
    vm_compute. reflexivity.
Defined.

(** Capacity 3 and the records a, b, c, d, e: all five come back in order,
    a, b, c are cached, and the identities of d and e are not in the cache. *)
Lemma update_capacity_three_of_five :
  ∃ h' c',
    update (__init__ 3) store5 [0; 1; 2; 3; 4] 100
      = (h', inr (c', [0; 1; 2; 3; 4])) ∧
    _cache c' = [(1%Z, 0); (2%Z, 1); (3%Z, 2)] ∧
    OrderedDict.get (_cache c') 4 = None ∧
    OrderedDict.get (_cache c') 5 = None.
Proof.
  destruct (update_returns_all_caches_prefix (__init__ 3) 100 store5
              [0; 1; 2; 3; 4] [1; 2; 3; 4; 5]%Z)
    as (h' & c' & Hupd & Hcache & Habsent).
  - simpl. lia.
  - repeat constructor.
  - by apply (bool_decide_unpack _).
  - exists h', c'. split_and!; [done|by rewrite Hcache|..].
    + apply (Habsent 3); [simpl; lia|done].
    + apply (Habsent 4); [simpl; lia|done].
Defined.

(** A fresh cache and the clock of a running system. *)
Lemma needs_full_update_at_start :
  needs_full_update (__init__ 500) {[4%Z; 8%Z]} 1700000000 = true.
Proof.
  apply needs_full_update_initially. vm_compute. reflexivity.
Defined.

End cache_scenarios.

Section manager_scenarios.
Import ProcessManager.

(** The DLL loaded, but its call raises in a first full refresh, which falls
    back to psutil; the second full refresh calls the DLL again. *)
Lemma bulk_backend_queried_after_failure :
  let s0 := init_state (inr ProcessInfo_dll) in
  let s1 := final (get_processes dll_down true s0) in
  let s2 := final (get_processes dll_down true s1) in
  (get_processes_from_dll dll_down s0).1 = [] ∧
  log s1 = [EvGetProcessesInfo; EvProcessIter] ∧
  log s2 = [EvGetProcessesInfo; EvProcessIter;
            EvGetProcessesInfo; EvProcessIter].
Proof. split_and!; vm_compute; reflexivity. Qed.

(** The same first refresh: the handle is kept. *)
Lemma bulk_backend_fallback_example :
  dll (self (final (get_processes dll_down true
                      (init_state (inr ProcessInfo_dll)))))
    = Some ProcessInfo_dll ∧
  ∃ evs,
    log (final (get_processes dll_down true
                  (init_state (inr ProcessInfo_dll))))
    = log (init_state (inr ProcessInfo_dll))
      ++ EvGetProcessesInfo :: evs ++ [EvProcessIter].
Proof.
  apply (proj2 (proj2 bulk_backend_retried_unless_never_loaded)
           (init_state (inr ProcessInfo_dll)) dll_down ProcessInfo_dll);
    reflexivity.
Defined.

(** The DLL did not load; psutil lists one process.  The record that the
    full refresh returns has no executable path, working directory, creation
    time or thread count. *)
Lemma fallback_record_lacks_exe :
  let r := get_processes dll_down true (init_state (inl OSError)) in
  match r with Return l _ => l = [0] | Raise _ _ => False end ∧
  (store (final r) !!! 0) !! "exe" = None ∧
  (store (final r) !!! 0) !! "cwd" = None ∧
  (store (final r) !!! 0) !! "create_time" = None ∧
  (store (final r) !!! 0) !! "num_threads" = None.
Proof. split_and!; vm_compute; reflexivity. Qed.

(** The same refresh: one record, with the resident size in kilobytes. *)
Lemma fallback_example :
  ∃ l s',
    get_processes dll_down true (init_state (inl OSError)) = Return l s' ∧
    length l = 1 ∧
    log s' = [EvProcessIter] ∧
    (∀ proc, l !! 0 = Some proc →
       (store s' !!! proc) !! "memory_kb" = Some (VInt 4096) ∧
       (store s' !!! proc) !! "num_threads" = None).
Proof.
  destruct (proj1 fallback_records_have_six_fields dll_down
              (init_state (inl OSError)) [4194304%Z])
    as (l & s' & Hret & _ & Hlen & Hlog & Hrec & _).
  - reflexivity.
  - repeat constructor.
  - exists l, s'. split_and!; [done|done|done|].
    intros proc Hproc.
    destruct (Hrec 0 proc system_item 4194304%Z Hproc eq_refl eq_refl)
      as (_ & _ & _ & Hmem & _ & _ & Hthreads).
    by split.
Defined.

(** A held record with the executable path "/usr/bin/foo" keeps it through a
    quick refresh that gives it a new memory_kb. *)
Lemma quick_refresh_keeps_exe :
  (store (final (get_processes answering false holding)) !!! 0) !! "exe"
    = Some (VStr "/usr/bin/foo") ∧
  (store (final (get_processes answering false holding)) !!! 0) !! "memory_kb"
    = Some (VInt 8192).
Proof.
  split.
  - rewrite (proj2 (proj2 (proj2 (quick_refresh_frame answering holding)))
               0 "exe"); [reflexivity|].
    by apply (bool_decide_unpack _).
  - vm_compute. reflexivity.
Defined.

End manager_scenarios.

End scenarios.

(** * Further properties *)

(** ** ProcessCache: what [update] writes and caches *)

Section more_OrderedDict_facts.
Import OrderedDict.

Lemma get_set_all l : ∀ od k r,
  get (set_all od l) k = Some r → get od k = Some r ∨ (k, r) ∈ l.
Proof.
  unfold set_all.
  induction l as [|[k' v] l IH]; intros od k r; cbn [foldl fst snd];
    [by left|].
  intros [Hget|Hin]%IH; [|right; by right].
  rewrite get_set in Hget. case_decide as Hk; [|by left].
  injection Hget as <-. subst k'. right. left.
Qed.

Lemma set_all_length l : ∀ od,
  length (set_all od l) ≤ length od + length l.
Proof.
  unfold set_all. induction l as [|[k v] l IH]; intros od;
    cbn [foldl fst snd length]; [lia|].
  pose proof (IH (set od k v)). pose proof (set_length od k v). lia.
Qed.

End more_OrderedDict_facts.

Section more_ProcessCache_facts.
Import ProcessCache.

Section outside.
Context (self : t) (current_time : float).

Lemma update_loop_outside ps : ∀ h nc,
  length (update_loop self current_time ps h nc).1 = length h ∧
  ∀ r, r ∉ ps → (update_loop self current_time ps h nc).1 !!! r = h !!! r.
Proof.
  induction ps as [|proc rest IH]; intros h nc; cbn [update_loop]; [done|].
  destruct (getitem_pid (h !!! proc)) as [e|pid]; [done|].
  destruct (max_size self <=? _)%Z; cbn [fst].
  - split; [apply carry_over_length|].
    intros r Hr%not_elem_of_cons. apply carry_over_other. tauto.
  - destruct (IH (carry_over self current_time h pid proc)
                (OrderedDict.set nc pid proc)) as [Hlen Hout].
    split; [by rewrite Hlen, carry_over_length|].
    intros r [Hne Hr]%not_elem_of_cons.
    rewrite Hout by done. by apply carry_over_other.
Qed.

(** Property X1.  [update] creates no object and writes to no object that it
    was not given, whether it returns or raises; the records of the prior
    generation that are not observed again stay as they are. *)
Theorem update_writes_only_observed h ps :
  length (update self h ps current_time).1 = length h ∧
  ∀ r, r ∉ ps → (update self h ps current_time).1 !!! r = h !!! r.
Proof.
  unfold update.
  pose proof (update_loop_outside ps h []) as Hloop.
  by destruct (update_loop self current_time ps h []) as [h' [e|nc]].
Qed.

(** Property X2.  The new generation is made of this call's observations
    alone: an identity is cached only if it was observed, under one of the
    observed objects that had it, and it holds no more entries than there are
    observed records. What the prior generation held plays no part. *)
Theorem update_generation_from_observed h ps pids :
  Forall2 (has_pid h) ps pids →
  NoDup ps →
  ∃ h' c',
    update self h ps current_time = (h', inr (c', ps)) ∧
    length (_cache c') ≤ length ps ∧
    ∀ k r, OrderedDict.get (_cache c') k = Some r →
           ∃ i, ps !! i = Some r ∧ pids !! i = Some k.
Proof.
  intros Hpids Hnd.
  destruct (update_loop_spec self current_time ps pids h [] Hpids Hnd)
    as (n & h' & Heq & Hn & _).
  eexists h', _. unfold update. rewrite Heq. cbn [_cache].
  assert (Hfrom : ∀ k r,
            OrderedDict.get
              (OrderedDict.set_all [] (take n (zip pids ps))) k = Some r →
            ∃ i, ps !! i = Some r ∧ pids !! i = Some k).
  { intros k r [Hnil|Hin]%get_set_all; [done|].
    apply subseteq_take in Hin.
    apply list_elem_of_lookup_1 in Hin as [i Hi].
    apply lookup_zip_with_Some in Hi as (k' & r' & [= <- <-] & Hk & Hr).
    by exists i. }
  split_and!; [done| |done].
  pose proof (set_all_length (take n (zip pids ps)) []) as Hlen.
  rewrite length_take, length_zip_with in Hlen. simpl in Hlen. cbn [_cache]. lia.
Qed.

End outside.
End more_ProcessCache_facts.

(** ** ProcessCache: identities *)

Lemma getitem_pid_inr (d : pydict) k :
  getitem_pid d = inr k ↔ d !! "pid" = Some (VInt k).
Proof.
  unfold getitem_pid.
  destruct (d !! "pid") as [[]|]; split; intros H; by simplify_eq.
Qed.

Lemma has_pid_lookup (h : heap) r k :
  has_pid h r k ↔ (h !!! r) !! "pid" = Some (VInt k).
Proof. apply getitem_pid_inr. Qed.

Lemma copy_fields_self fields (d : pydict) : copy_fields fields d d = d.
Proof.
  apply map_eq. intros k. rewrite copy_fields_lookup.
  case_decide; [|done]. by destruct (d !! k).
Qed.

Section more_ProcessCache_facts2.
Import ProcessCache.

Section consistency.
Context (self : t) (current_time : float).

(** With a prior generation whose records carry the identities they are
    cached under, the identities of the observed records come through. *)
Lemma update_identities h ps pids :
  cache_ok (_cache self) h →
  Forall2 (has_pid h) ps pids →
  NoDup ps →
  (∀ k c, OrderedDict.get (_cache self) k = Some c → c ∉ ps) →
  ∃ h' c',
    update self h ps current_time = (h', inr (c', ps)) ∧
    Forall2 (has_pid h') ps pids ∧
    ∀ k r, OrderedDict.get (_cache c') k = Some r →
           ∃ i, ps !! i = Some r ∧ pids !! i = Some k.
Proof.
  intros Hok Hpids Hnd Hdisj.
  destruct (update_loop_spec self current_time ps pids h [] Hpids Hnd)
    as (n & h' & Heq & Hn & _ & _ & _ & Hframe & Hcont).
  specialize (Hcont Hdisj).
  assert (Hkeep : ∀ i proc pid,
            ps !! i = Some proc → pids !! i = Some pid → has_pid h' proc pid).
  { intros i proc pid Hp Hq.
    pose proof (Forall2_lookup_lr _ _ _ _ _ _ Hpids Hp Hq) as Hpid.
    destruct (decide (i < n)) as [Hi|Hi].
    - rewrite has_pid_lookup, (Hcont i proc pid Hi Hp Hq).
      destruct (OrderedDict.get (_cache self) pid) as [cached|] eqn:Hget;
        [|by apply has_pid_lookup].
      destruct (in_window self current_time); [|by apply has_pid_lookup].
      rewrite copy_fields_lookup.
      apply Hok, has_pid_lookup in Hget. rewrite Hget.
      case_decide; [done|by apply has_pid_lookup].
    - unfold has_pid. rewrite Hframe; [done|].
      intros (j & Hj & Hlt)%elem_of_take.
      pose proof (NoDup_lookup _ _ _ _ Hnd Hp Hj). lia. }
  eexists h', _. unfold update. rewrite Heq. split_and!; [done|..].
  - apply Forall2_same_length_lookup_2; [by eapply Forall2_length|].
    intros i proc pid. apply Hkeep.
  - intros k r [Hnil|Hin]%get_set_all; [done|].
    apply subseteq_take in Hin.
    apply list_elem_of_lookup_1 in Hin as [i Hi].
    apply lookup_zip_with_Some in Hi as (k' & r' & [= <- <-] & Hk & Hr).
    by exists i.
Qed.

(** Property X3.  Carry-over never changes an identity. When every record of
    the prior generation carries the identity it is cached under, every
    observed record has after [update] the identity it had before, and every
    record of the new generation carries the identity it is cached under. *)
Theorem update_keeps_identities h ps pids :
  cache_ok (_cache self) h →
  Forall2 (has_pid h) ps pids →
  NoDup ps →
  (∀ k c, OrderedDict.get (_cache self) k = Some c → c ∉ ps) →
  ∃ h' c',
    update self h ps current_time = (h', inr (c', ps)) ∧
    Forall2 (has_pid h') ps pids ∧
    cache_ok (_cache c') h'.
Proof.
  intros Hok Hpids Hnd Hdisj.
  destruct (update_identities h ps pids Hok Hpids Hnd Hdisj)
    as (h' & c' & Hupd & Hpids' & Hfrom).
  exists h', c'. split_and!; [done..|].
  intros k r (i & Hi & Hk)%Hfrom.
  by apply (Forall2_lookup_lr _ _ _ _ _ _ Hpids' Hi Hk).
Qed.

End consistency.

Lemma update_loop_cache_determined selfA selfB tA tB ps : ∀ pids hA hB nc,
  max_size selfA = max_size selfB →
  Forall2 (has_pid hA) ps pids →
  Forall2 (has_pid hB) ps pids →
  NoDup ps →
  (update_loop selfA tA ps hA nc).2 = (update_loop selfB tB ps hB nc).2.
Proof.
  induction ps as [|proc rest IH]; intros pids hA hB nc Hcap HA HB Hnd;
    cbn [update_loop]; [done|].
  destruct pids as [|pid pids']; [by apply Forall2_cons_nil_inv in HA|].
  apply Forall2_cons in HA as [HpA HA]. apply Forall2_cons in HB as [HpB HB].
  apply NoDup_cons in Hnd as [Hnotin Hnd].
  unfold has_pid in HpA, HpB. rewrite HpA, HpB, Hcap.
  destruct (max_size selfB <=? _)%Z; [done|].
  apply (IH pids'); [done| | |done].
  - apply (has_pid_ext hA); [|done]. intros r Hr.
    apply carry_over_other. by intros ->.
  - apply (has_pid_ext hB); [|done]. intros r Hr.
    apply carry_over_other. by intros ->.
Qed.

(** The loop changes nothing when the cache's entry for every observed
    identity is the observed object itself. *)
Lemma update_loop_self self current_time ps : ∀ h nc,
  (∀ proc pid c, proc ∈ ps → has_pid h proc pid →
     OrderedDict.get (_cache self) pid = Some c → c = proc) →
  (update_loop self current_time ps h nc).1 = h.
Proof.
  induction ps as [|proc rest IH]; intros h nc Hself; cbn [update_loop];
    [done|].
  destruct (getitem_pid (h !!! proc)) as [e|pid] eqn:Hpid; [done|].
  assert (Hsame : carry_over self current_time h pid proc = h).
  { unfold carry_over.
    destruct (OrderedDict.get (_cache self) pid) as [c|] eqn:Hget; [|done].
    destruct (in_window self current_time); [|done].
    rewrite (Hself proc pid c) by (done || left).
    rewrite copy_fields_self. apply list_insert_id.
    apply list_lookup_lookup_total_lt. by eapply getitem_pid_valid. }
  rewrite Hsame. destruct (max_size self <=? _)%Z; [done|].
  apply IH. intros proc' pid' c Hin. apply Hself. by right.
Qed.

(** Property X4.  [update] is idempotent up to its timestamp. When every
    record of the prior generation carries the identity it is cached under,
    and the observed records have distinct identities and are none of them an
    object of the prior generation, then after the update a second update with
    the same list, at any time, changes no record and rebuilds the same
    generation. *)
Theorem update_twice self h ps pids t1 :
  cache_ok (_cache self) h →
  Forall2 (has_pid h) ps pids →
  NoDup pids →
  (∀ k c, OrderedDict.get (_cache self) k = Some c → c ∉ ps) →
  ∃ h1 c1,
    update self h ps t1 = (h1, inr (c1, ps)) ∧
    ∀ t2, update c1 h1 ps t2
          = (h1, inr ({| _cache := _cache c1; max_size := max_size c1;
                         _last_update := t2 |}, ps)).
Proof.
  intros Hok Hpids Hndp Hdisj.
  pose proof (has_pid_NoDup _ _ _ Hpids Hndp) as Hnd.
  destruct (update_identities self t1 h ps pids Hok Hpids Hnd Hdisj)
    as (h1 & c1 & Hupd & Hpids1 & Hfrom).
  exists h1, c1. split; [done|]. intros t2.
  assert (Hloop : max_size c1 = max_size self ∧
                  (update_loop self t1 ps h []).2 = inr (_cache c1)).
  { unfold update in Hupd.
    destruct (update_loop self t1 ps h []) as [? [?|?]]; [done|].
    by injection Hupd as _ <-. }
  destruct Hloop as [Hcap Hloop].
  pose proof (update_loop_cache_determined self c1 t1 t2 ps pids h h1 []
                (eq_sym Hcap) Hpids Hpids1 Hnd) as Hdet.
  rewrite Hloop in Hdet.
  assert (Hself : (update_loop c1 t2 ps h1 []).1 = h1).
  { apply update_loop_self. intros proc pid c Hin Hpid Hget.
    destruct (Hfrom pid c Hget) as (i & Hi & Hk).
    apply list_elem_of_lookup_1 in Hin as [j Hj].
    destruct (Forall2_lookup_l _ _ _ _ _ Hpids1 Hj) as (pid' & Hj' & Hpid').
    unfold has_pid in Hpid, Hpid'. rewrite Hpid in Hpid'.
    injection Hpid' as <-.
    pose proof (NoDup_lookup _ _ _ _ Hndp Hk Hj'). subst j. congruence. }
  unfold update.
  destruct (update_loop c1 t2 ps h1 []) as [hB resB].
  cbn [fst snd] in *. by subst.
Qed.

End more_ProcessCache_facts2.

(** ** ProcessCache: the policy after an update *)

Section policy_after_update.
Import ProcessCache.

(** With distinct identities and a capacity of at least one, the new
    generation is the first [max_size] observed records. *)
Lemma update_distinct self current_time h ps pids :
  (1 ≤ max_size self)%Z →
  Forall2 (has_pid h) ps pids →
  NoDup pids →
  ∃ h',
    update self h ps current_time
    = (h', inr ({| _cache := take (Z.to_nat (max_size self)) (zip pids ps);
                   max_size := max_size self;
                   _last_update := current_time |}, ps)).
Proof.
  intros Hcap Hpids Hnd.
  pose proof (Forall2_length _ _ _ Hpids) as Hlen.
  destruct (update_loop_spec self current_time ps pids h [] Hpids)
    as (n & h' & Heq & Hn & Hstop & Hmin & _);
    [by eapply has_pid_NoDup|].
  assert (Hsize : ∀ m, m ≤ length ps →
            length (OrderedDict.set_all [] (take m (zip pids ps))) = m).
  { intros m Hm. rewrite take_zip_distinct by done.
    rewrite length_take, length_zip_with. lia. }
  assert (Hcut : take n (zip pids ps)
                 = take (Z.to_nat (max_size self)) (zip pids ps)).
  { destruct (decide (Z.to_nat (max_size self) ≤ length ps)) as [Hle|Hgt].
    - f_equal. destruct (decide (Z.to_nat (max_size self) < n)) as [Hlt|].
      + specialize (Hmin (Z.to_nat (max_size self))).
        rewrite Hsize in Hmin by done. lia.
      + destruct Hstop as [->|Hfull]; [lia|].
        rewrite Hsize in Hfull by done. lia.
    - assert (n = length ps) as ->.
      { destruct Hstop as [->|Hfull]; [done|].
        rewrite Hsize in Hfull by done. lia. }
      rewrite !take_ge; [done|rewrite length_zip_with; lia..]. }
  rewrite take_zip_distinct, Hcut in Heq by done.
  exists h'. unfold update. by rewrite Heq.
Qed.

(** The same for every capacity: at a capacity below one the loop still
    caches the first record before it stops. *)
Lemma update_distinct_any self current_time h ps pids :
  Forall2 (has_pid h) ps pids →
  NoDup pids →
  ∃ h',
    update self h ps current_time
    = (h', inr ({| _cache := take (Z.to_nat (Z.max 1 (max_size self)))
                               (zip pids ps);
                   max_size := max_size self;
                   _last_update := current_time |}, ps)).
Proof.
  intros Hpids Hnd.
  destruct (decide (1 ≤ max_size self)%Z) as [Hcap|Hcap].
  - rewrite Z.max_r by done. by apply update_distinct.
  - rewrite Z.max_l by lia. change (Z.to_nat 1) with 1.
    destruct Hpids as [|proc pid ps pids Hpid _]; [by exists h|].
    unfold update. cbn [update_loop]. unfold has_pid in Hpid. rewrite Hpid.
    cbn [OrderedDict.set length].
    rewrite (proj2 (Z.leb_le _ _)) by lia.
    by eexists.
Qed.

Lemma cached_pids_prefix (pids : list Z) (ps : list ref) n cap t :
  length ps = length pids →
  cached_pids {| _cache := take n (zip pids ps); max_size := cap;
                 _last_update := t |}
  = list_to_set (take n pids).
Proof.
  intros Hlen. unfold cached_pids, OrderedDict.keys. cbn [_cache].
  by rewrite fmap_take, fst_zip by lia.
Qed.

(** Property X5.  After an update that fits in the cache, only time makes a
    full update due. When the observed records have distinct identities and
    are no more than [max_size], [needs_full_update] asked about these very
    identities answers by the clock alone: true exactly when more than 5.0
    seconds have passed since the update. *)
Theorem policy_after_update_that_fits self current_time h ps pids :
  Forall2 (has_pid h) ps pids →
  NoDup pids →
  (Z.of_nat (length ps) ≤ max_size self)%Z →
  ∃ h' c',
    update self h ps current_time = (h', inr (c', ps)) ∧
    ∀ now, needs_full_update c' (list_to_set pids) now
           = (5 <? now - current_time)%float.
Proof.
  intros Hpids Hnd Hfit.
  pose proof (Forall2_length _ _ _ Hpids) as Hlen.
  assert (Hquiet : ∀ (c' : t) now,
            cached_pids c' = list_to_set pids → _last_update c' = current_time →
            needs_full_update c' (list_to_set pids) now
            = (5 <? now - current_time)%float).
  { intros c' now Hc Ht. unfold needs_full_update.
    by rewrite Hc, Ht, difference_diag_L, size_empty. }
  destruct (decide (1 ≤ max_size self)%Z) as [Hcap|Hcap].
  - destruct (update_distinct self current_time h ps pids Hcap Hpids Hnd)
      as [h' Hupd].
    eexists h', _. split; [done|]. intros now. apply Hquiet; [|done].
    rewrite cached_pids_prefix by done. by rewrite take_ge by lia.
  - destruct ps as [|proc ps]; [|simpl in Hfit; lia].
    apply Forall2_nil_inv_l in Hpids as ->.
    eexists h, _. split; [done|]. intros now. by apply Hquiet.
Qed.

(** Property X6.  Beyond the capacity plus five, a full update is always due.
    When the observed records have distinct identities and are more than [max
    (max_size, 1) + 5], one being the least a generation holds of a list that
    is not empty, [needs_full_update] asked about these very identities is
    true at every time: the records that did not fit count as appeared. *)
Theorem policy_saturated self current_time h ps pids :
  Forall2 (has_pid h) ps pids →
  NoDup pids →
  (Z.max 1 (max_size self) + 5 < Z.of_nat (length ps))%Z →
  ∃ h' c',
    update self h ps current_time = (h', inr (c', ps)) ∧
    ∀ now, needs_full_update c' (list_to_set pids) now = true.
Proof.
  intros Hpids Hnd Hmany.
  pose proof (Forall2_length _ _ _ Hpids) as Hlen.
  destruct (update_distinct_any self current_time h ps pids Hpids Hnd)
    as [h' Hupd].
  eexists h', _. split; [done|]. intros now. unfold needs_full_update.
  rewrite cached_pids_prefix by done.
  set (n := Z.to_nat (Z.max 1 (max_size self))).
  assert (Hsize : size (list_to_set (C := gset Z) pids
                        ∖ list_to_set (take n pids)) = length pids - n).
  { rewrite <- (take_drop n pids) at 1.
    rewrite <- (take_drop n pids) in Hnd.
    apply NoDup_app in Hnd as (Hnd1 & Hdisj & Hnd2).
    rewrite list_to_set_app_L.
    replace ((list_to_set (take n pids) ∪ list_to_set (drop n pids))
             ∖ list_to_set (take n pids))
      with (list_to_set (C := gset Z) (drop n pids)).
    - by rewrite size_list_to_set, length_drop.
    - apply set_eq. intros x.
      rewrite elem_of_difference, elem_of_union, !elem_of_list_to_set.
      split; [|tauto]. intros Hx. split; [by right|].
      intros Hx'. by apply (Hdisj x). }
  rewrite Hsize.
  replace (5 <? length pids - n) with true; [done|].
  symmetry. apply Nat.ltb_lt. lia.
Qed.

End policy_after_update.

(** ** Records with the six keys *)

Lemma copy_fields_empty fields (d : pydict) : copy_fields fields ∅ d = d.
Proof.
  apply map_eq. intros k. rewrite copy_fields_lookup, lookup_empty.
  by case_decide.
Qed.

Lemma full_record_built d : full_record d → built d.
Proof.
  intros [Hpid Hkeys]. split; [done|]. intros k Hk.
  apply eq_None_not_Some. by rewrite Hkeys.
Qed.

Lemma full_record_copy_fields (c p : pydict) :
  full_record c → full_record p →
  full_record (copy_fields ProcessCache._static_fields c p).
Proof.
  intros [[cpid Hc] Hck] [[ppid Hp] Hpk]. split.
  - apply getitem_pid_inr in Hc, Hp.
    assert (Hpid : copy_fields ProcessCache._static_fields c p !! "pid"
                   = Some (VInt cpid)).
    { rewrite copy_fields_lookup, Hc. case_decide as Hin; [done|].
      exfalso. apply Hin. by apply (bool_decide_unpack _). }
    exists cpid. by apply getitem_pid_inr.
  - intros k. rewrite copy_fields_lookup. case_decide; [|apply Hpk].
    destruct (c !! k) eqn:Hk; [|apply Hpk].
    split; [intros _|by eexists]. apply Hck. by rewrite Hk.
Qed.

Lemma record_key_cases k :
  k ∈ record_keys →
  k = "pid" ∨ k = "name" ∨ k = "memory_kb" ∨ k = "cpu_percent" ∨
  k = "status" ∨ k = "username".
Proof.
  unfold record_keys. rewrite !elem_of_cons, elem_of_nil. tauto.
Qed.

Lemma full_record_intro (d : pydict) pid :
  d !! "pid" = Some (VInt pid) →
  is_Some (d !! "name") → is_Some (d !! "memory_kb") →
  is_Some (d !! "cpu_percent") → is_Some (d !! "status") →
  is_Some (d !! "username") →
  (∀ k, k ∉ record_keys → d !! k = None) →
  full_record d.
Proof.
  intros Hpid ????? Hother. split; [exists pid; by apply getitem_pid_inr|].
  intros k. split.
  - intros Hk. destruct (decide (k ∈ record_keys)) as [|Hn]; [done|].
    rewrite (Hother k Hn) in Hk. by destruct Hk.
  - intros [->|[->|[->|[->|[->| ->]]]]]%record_key_cases; done.
Qed.

Section records.
Import ProcessManager.

Lemma full_record_new_proc p name memory_kb :
  full_record (new_proc (VInt p) name memory_kb).
Proof.
  destruct (new_proc_lookup (VInt p) name memory_kb) as (?&?&?&?&?&?).
  apply (full_record_intro _ p); try done; try by eexists.
  apply new_proc_other.
Qed.

Lemma full_record_dict_update (d : pydict) items :
  (∀ k, k ∈ items.*1 → k ∈ record_keys ∧ k ≠ "pid") →
  full_record d → full_record (dict_update d items).
Proof.
  unfold dict_update. revert d.
  induction items as [|[k v] items IH]; intros d Hitems Hd; [done|].
  cbn [foldl fst snd]. apply IH.
  { intros k' Hk'. apply Hitems. by right. }
  destruct (Hitems k) as [Hk Hne]; [left|].
  destruct Hd as [[pid Hpid] Hkeys]. split.
  - exists pid. apply getitem_pid_inr. rewrite lookup_insert_ne by done.
    by apply getitem_pid_inr.
  - intros k'. destruct (decide (k = k')) as [<-|Hkk].
    + rewrite lookup_insert_eq. split; [done|by eexists].
    + rewrite lookup_insert_ne by done. apply Hkeys.
Qed.

Lemma full_record_enrich d p : full_record d → full_record (enrich d p).
Proof.
  apply full_record_dict_update. intros k. cbn.
  rewrite !elem_of_cons, elem_of_nil.
  intros [->|[->|[->|[]]]]; (split; [by apply (bool_decide_unpack _)|done]).
Qed.

Lemma full_record_refresh d p : full_record d → full_record (refresh d p).
Proof.
  apply full_record_dict_update. intros k. cbn.
  rewrite !elem_of_cons, elem_of_nil.
  intros [->|[->|[->|[]]]]; (split; [by apply (bool_decide_unpack _)|done]).
Qed.

Lemma full_record_iter_record proc rss : full_record (iter_record proc rss).
Proof.
  destruct (iter_record_lookup proc rss) as (?&?&?&?&?&?).
  apply (full_record_intro _ (info_pid proc)); try done; try by eexists.
  apply iter_record_other.
Qed.

End records.

Section store_facts.
Import ProcessCache.

Lemma carry_over_Forall self current_time (h : heap) pid proc :
  Forall full_record h →
  Forall full_record (carry_over self current_time h pid proc).
Proof.
  intros Hh. unfold carry_over.
  destruct (OrderedDict.get (_cache self) pid) as [cached|]; [|done].
  destruct (in_window self current_time); [|done].
  destruct (decide (proc < length h)) as [Hlt|];
    [|by rewrite list_insert_ge by lia].
  apply Forall_insert; [done|].
  assert (Hp : full_record (h !!! proc)).
  { eapply Forall_lookup_1; [done|]. by apply list_lookup_lookup_total_lt. }
  destruct (decide (cached < length h)) as [Hc|Hc].
  - apply full_record_copy_fields; [|done].
    eapply Forall_lookup_1; [done|]. by apply list_lookup_lookup_total_lt.
  - assert (h !!! cached = (∅ : pydict)) as ->.
    { by rewrite list_lookup_total_alt, lookup_ge_None_2 by lia. }
    by rewrite copy_fields_empty.
Qed.

Lemma update_loop_Forall self current_time ps : ∀ h nc,
  Forall full_record h →
  Forall full_record (update_loop self current_time ps h nc).1.
Proof.
  induction ps as [|proc rest IH]; intros h nc Hh; cbn [update_loop]; [done|].
  destruct (getitem_pid (h !!! proc)) as [e|pid]; [done|].
  destruct (max_size self <=? _)%Z;
    [by apply carry_over_Forall|by apply IH, carry_over_Forall].
Qed.

Lemma update_Forall self current_time ps h :
  Forall full_record h →
  Forall full_record (update self h ps current_time).1.
Proof.
  intros Hh. unfold update.
  pose proof (update_loop_Forall self current_time ps h [] Hh).
  by destruct (update_loop self current_time ps h []) as [h' [e|nc]].
Qed.

End store_facts.

(** ** ProcessManager: the objects of a full refresh *)

Section more_ProcessManager_facts.
Import ProcessManager.

Lemma append_new_Forall d s :
  full_record d → Forall full_record (store s) →
  Forall full_record (store (append_new d s)).
Proof.
  intros Hd Hs. cbn. apply Forall_app. split; [done|by constructor].
Qed.

Lemma dll_entry_Forall w i proc s :
  Forall full_record (store s) →
  Forall full_record (store (dll_entry w i proc s)).
Proof.
  intros Hs. unfold dll_entry.
  destruct (proc !! "pid") as [pid|]; [|done].
  destruct (proc !! "name") as [name|]; [|done].
  destruct (proc !! "memory_kb") as [mem|]; [|done].
  destruct pid as [|p|f|str]; try done.
  destruct (os_Process w i p) as [e|info].
  - destruct (vanished_or_denied e); [|done].
    apply append_new_Forall; [apply full_record_new_proc|done].
  - apply append_new_Forall; [|done].
    apply full_record_enrich, full_record_new_proc.
Qed.

Lemma dll_loop_Forall w entries : ∀ i s,
  Forall full_record (store s) →
  Forall full_record (store (dll_loop w i entries s)).
Proof.
  induction entries as [|proc rest IH]; intros i s Hs; cbn [dll_loop];
    [done|]. by apply IH, dll_entry_Forall.
Qed.

Lemma iter_loop_Forall items : ∀ s,
  Forall full_record (store s) →
  Forall full_record (store (final (iter_loop items s))).
Proof.
  induction items as [|proc rest IH]; intros s Hs; cbn [iter_loop]; [done|].
  destruct (info_memory_info proc) as [rss|]; [|done].
  apply IH, append_new_Forall; [apply full_record_iter_record|done].
Qed.

Lemma iter_loop_raises items : ∀ s e s',
  iter_loop items s = Raise e s' → e = AttributeError.
Proof.
  induction items as [|proc rest IH]; intros s e s'; cbn [iter_loop];
    [done|].
  destruct (info_memory_info proc) as [rss|]; [apply IH|].
  by intros [= <- _].
Qed.

Lemma refresh_loop_Forall w procs : ∀ i s,
  Forall full_record (store s) →
  Forall full_record (store (final (refresh_loop w i procs s))).
Proof.
  induction procs as [|proc rest IH]; intros i s Hs; cbn [refresh_loop];
    [done|].
  destruct (getitem_pid (store s !!! proc)) as [e|pid]; [done|].
  destruct (os_Process w i pid) as [e|p].
  - destruct (vanished_or_denied e); [by apply IH|done].
  - apply IH. cbn [store set_store emit].
    destruct (decide (proc < length (store s))) as [Hlt|];
      [|by rewrite list_insert_ge by lia].
    apply Forall_insert; [done|]. apply full_record_refresh.
    eapply Forall_lookup_1; [done|]. by apply list_lookup_lookup_total_lt.
Qed.

Lemma finish_full_store w s :
  store (final (finish_full w s))
  = (ProcessCache.update (cache (self s)) (store s) (processes (self s))
       (os_time_update w)).1.
Proof.
  unfold finish_full.
  by destruct (ProcessCache.update _ _ _ _) as [h [e|[c l]]].
Qed.

Lemma finish_full_outside w s :
  length (store (final (finish_full w s))) = length (store s) ∧
  ∀ r, r ∉ processes (self s) →
       store (final (finish_full w s)) !!! r = store s !!! r.
Proof.
  rewrite finish_full_store. unfold ProcessCache.update.
  pose proof (update_loop_outside (cache (self s)) (os_time_update w)
                (processes (self s)) (store s) []) as Hloop.
  by destruct (ProcessCache.update_loop _ _ _ _ _) as [h' [e|nc]].
Qed.

(** The stages of a full refresh: fresh records are appended for the DLL's
    entries or psutil's items; then either the enumeration has raised, or
    the list goes through the cache. *)
Lemma full_refresh_stages w s :
  ∃ s3 news,
    grows (set_processes [] (get_processes_from_dll w s).2) s3 news ∧
    Forall built news ∧
    (Forall full_record (store s) → Forall full_record (store s3)) ∧
    (get_processes w true s = Raise AttributeError s3 ∨
     get_processes w true s = finish_full w s3).
Proof.
  rewrite get_processes_full_eq.
  destruct (get_processes_from_dll_state w s) as (e0 & Hs1 & _).
  set (s1 := (get_processes_from_dll w s).2) in *.
  assert (Hstore1 : store (set_processes [] s1) = store s)
    by (by rewrite Hs1).
  destruct ((get_processes_from_dll w s).1) as [|entry entries].
  - destruct (iter_loop_spec (os_process_iter w)
                (emit EvProcessIter (set_processes [] s1)))
      as (news & G & _ & B & _).
    pose proof (iter_loop_Forall (os_process_iter w)
                  (emit EvProcessIter (set_processes [] s1))) as HF.
    pose proof (iter_loop_raises (os_process_iter w)
                  (emit EvProcessIter (set_processes [] s1))) as HR.
    destruct (iter_loop _ _) as [[] s3|e s3]; cbn [final] in *;
      exists s3, news; (split_and!; [done|done| |]).
    + intros Hs. apply HF. cbn [store emit]. by rewrite Hstore1.
    + by right.
    + intros Hs. apply HF. cbn [store emit]. by rewrite Hstore1.
    + left. by rewrite (HR e s3).
  - destruct (dll_loop_spec w (entry :: entries) 0 (set_processes [] s1))
      as (news & evs & G & _ & _ & B & _).
    eexists _, news. split_and!; [done|done| |by right].
    intros Hs. apply dll_loop_Forall. by rewrite Hstore1.
Qed.

(** Property X7.  A full refresh builds its list from fresh objects and leaves
    every object that existed before as it was, whether it returns or raises:
    what a consumer holds of an earlier list is not written to. *)
Theorem full_refresh_allocates w s :
  (∀ r, r < length (store s) →
        store (final (get_processes w true s)) !!! r = store s !!! r) ∧
  (∀ r, r ∈ processes (self (final (get_processes w true s))) →
        length (store s) ≤ r < length (store (final (get_processes w true s)))) ∧
  NoDup (processes (self (final (get_processes w true s)))).
Proof.
  destruct (full_refresh_stages w s)
    as (s3 & news & (G1 & G2 & _) & _ & _ & Hres).
  destruct (get_processes_from_dll_state w s) as (e0 & Hs1 & _).
  rewrite Hs1 in G1, G2. cbn [set_processes store self processes app] in G1, G2.
  assert (Hold : ∀ r, r < length (store s) → store s3 !!! r = store s !!! r).
  { intros r Hr. by rewrite G1, lookup_total_app_l. }
  assert (Hfresh : ∀ r, r ∈ processes (self s3) →
                        length (store s) ≤ r < length (store s3)).
  { intros r. rewrite G2, G1, elem_of_seq, length_app. lia. }
  assert (Hnd : NoDup (processes (self s3))) by (rewrite G2; apply NoDup_seq).
  destruct Hres as [-> | ->]; [by cbn [final]|].
  destruct (finish_full_outside w s3) as [Hlen Hout].
  destruct (finish_full_frame w s3) as (_ & _ & Hprocs & _).
  rewrite Hprocs, Hlen. split_and!; [|done..].
  intros r Hr. rewrite Hout; [by apply Hold|].
  intros Hin%Hfresh. lia.
Qed.

End more_ProcessManager_facts.

(** ** ProcessManager: what holds between two calls *)

Lemma has_pid_lt (h : heap) r k : has_pid h r k → r < length h.
Proof.
  unfold has_pid. intros H. destruct (decide (r < length h)); [done|].
  rewrite list_lookup_total_alt, lookup_ge_None_2 in H by lia. done.
Qed.

Lemma full_record_has_pid (h : heap) r :
  Forall full_record h → r < length h → ∃ pid, has_pid h r pid.
Proof.
  intros Hh Hr. apply (Forall_lookup_1 _ _ r (h !!! r)) in Hh as [Hpid _];
    [done|by apply list_lookup_lookup_total_lt].
Qed.

Lemma cache_ok_app od (h news : heap) : cache_ok od h → cache_ok od (h ++ news).
Proof.
  intros Hok k r Hget. specialize (Hok k r Hget).
  pose proof (has_pid_lt _ _ _ Hok). unfold has_pid in *.
  by rewrite lookup_total_app_l.
Qed.

Section invariant.
Import ProcessManager.

Lemma manager_inv_init load : manager_inv (init_state load).
Proof.
  unfold manager_inv. cbn. split_and!; [constructor| |constructor|done|done|lia].
  intros r Hr. by apply elem_of_nil in Hr.
Qed.

Lemma manager_inv_sort s l :
  l ≡ₚ processes (self s) → manager_inv s → manager_inv (set_processes l s).
Proof.
  intros Hl (I1 & I2 & I3 & I4 & I5 & I6). unfold manager_inv. cbn.
  split_and!; [by rewrite Hl| |done..].
  intros r Hr. apply I2. by rewrite <- Hl.
Qed.

Lemma manager_inv_kill os pid s :
  manager_inv s → manager_inv (kill_process os pid s).2.
Proof.
  unfold manager_inv. destruct (kill_process_state os pid s) as [-> ->]. done.
Qed.

Lemma manager_inv_quick w s :
  manager_inv s → manager_inv (final (get_processes w false s)).
Proof.
  intros (I1 & I2 & I3 & I4 & I5 & I6).
  assert (final (get_processes w false s)
          = final (refresh_loop w 0 (processes (self s)) s)) as ->.
  { rewrite get_processes_quick_eq. by destruct (refresh_loop _ _ _ _). }
  destruct (refresh_loop_frame w (processes (self s)) 0 s) as (F1 & F2 & F3).
  unfold manager_inv. rewrite F1, F2. split_and!; [done|done| | |done|done].
  - by apply refresh_loop_Forall.
  - intros k r Hget. apply has_pid_lookup. rewrite F3.
    + by apply has_pid_lookup, I4.
    + by apply (bool_decide_unpack _).
Qed.

Lemma manager_inv_full w s :
  manager_inv s → manager_inv (final (get_processes w true s)).
Proof.
  intros (I1 & I2 & I3 & I4 & I5 & I6).
  destruct (full_refresh_stages w s)
    as (s3 & news & (G1 & G2 & G3 & _) & B & F & Hres).
  destruct (get_processes_from_dll_state w s) as (e0 & Hs1 & _).
  rewrite Hs1 in G1, G2, G3.
  cbn [set_processes store self processes cache app] in G1, G2, G3.
  assert (J1 : NoDup (processes (self s3))) by (rewrite G2; apply NoDup_seq).
  assert (J2 : ∀ r, r ∈ processes (self s3) → r < length (store s3)).
  { intros r. rewrite G2, G1, elem_of_seq, length_app. lia. }
  assert (J4 : cache_ok (ProcessCache._cache (cache (self s3))) (store s3)).
  { rewrite G1, G3. by apply cache_ok_app. }
  destruct Hres as [-> | ->]; cbn [final].
  { unfold manager_inv. rewrite G3. split_and!; [done|done|by apply F| |done..].
    by rewrite <- G3. }
  destruct (built_has_pid news (store s) B) as [pids Hpids].
  rewrite <- G1, <- G2 in Hpids.
  destruct (update_identities (cache (self s3)) (os_time_update w)
              (store s3) (processes (self s3)) pids J4 Hpids J1)
    as (h' & c' & Hupd & Hpids' & Hfrom).
  { intros k c Hget Hin. rewrite G3 in Hget.
    pose proof (has_pid_lt _ _ _ (I4 k c Hget)).
    rewrite G2 in Hin. apply elem_of_seq in Hin. lia. }
  pose proof (update_Forall (cache (self s3)) (os_time_update w)
                (processes (self s3)) (store s3) (F I3)) as HF.
  pose proof (update_cache_size _ _ _ _ _ _ _ Hupd) as Hsize.
  pose proof (update_frame _ _ _ _ _ _ Hupd) as (Hlen & _).
  assert (Hmax : ProcessCache.max_size c' = ProcessCache.max_size (cache (self s3))).
  { revert Hupd. unfold ProcessCache.update.
    destruct (ProcessCache.update_loop _ _ _ _ _) as [h1 [e|nc]]; [done|].
    by intros [= _ <- ]. }
  unfold finish_full. rewrite Hupd in *. cbn [final fst] in *.
  unfold manager_inv. cbn [store self processes cache].
  rewrite Hmax, G3, I5 in *. split_and!; [done| |done| |done|lia].
  - intros r Hr. rewrite Hlen. by apply J2.
  - intros k r (i & Hi & Hk)%Hfrom.
    by apply (Forall2_lookup_lr _ _ _ _ _ _ Hpids' Hi Hk).
Qed.

Lemma manager_inv_step s c : manager_inv s → manager_inv (step s c).
Proof.
  destruct c as [w [|]|os pid]; cbn [step].
  - apply manager_inv_full.
  - apply manager_inv_quick.
  - apply manager_inv_kill.
Qed.

Lemma reachable_inv s : reachable s → manager_inv s.
Proof.
  induction 1 as [load|s c _ IH _|s l _ IH Hl].
  - apply manager_inv_init.
  - by apply manager_inv_step.
  - by apply manager_inv_sort.
Qed.

(** Property X8.  While the DLL reports integer pids, whatever else the
    operating system answers and in whatever order the application calls the
    manager and sorts its list, the manager's list names distinct objects,
    every listed record has an integer identity and the six keys of a record
    and no other, the cache holds at most 500 records, and every cached record
    carries the identity it is cached under. *)
Theorem manager_invariant s :
  reachable s →
  NoDup (processes (self s)) ∧
  (∀ r, r ∈ processes (self s) →
     ∃ pid, has_pid (store s) r pid ∧
            ∀ k, is_Some ((store s !!! r) !! k) ↔ k ∈ record_keys) ∧
  length (ProcessCache._cache (cache (self s))) ≤ 500 ∧
  ∀ k r, OrderedDict.get (ProcessCache._cache (cache (self s))) k = Some r →
         has_pid (store s) r k.
Proof.
  intros (I1 & I2 & I3 & I4 & I5 & I6)%reachable_inv.
  split_and!; [done| |done|done].
  intros r Hr%I2.
  apply (Forall_lookup_1 _ _ r (store s !!! r)) in I3 as [[pid Hpid] Hkeys];
    [|by apply list_lookup_lookup_total_lt].
  by exists pid.
Qed.

End invariant.

(** ** ProcessManager: how a refresh ends *)

Section outcomes.
Import ProcessManager.
Context (w : World).

(** The fallback loop stops at the first item without [memory_info]. *)
Lemma iter_loop_cases items : ∀ s,
  (Forall (λ it, is_Some (info_memory_info it)) items ∧
   ∃ s', iter_loop items s = Return tt s' ∧
     processes (self s') =
       processes (self s) ++ seq (length (store s)) (length items)) ∨
  (∃ pre item post s',
     items = pre ++ item :: post ∧
     Forall (λ it, is_Some (info_memory_info it)) pre ∧
     info_memory_info item = None ∧
     iter_loop items s = Raise AttributeError s' ∧
     store s' = store s ++ zip_with iter_record pre
                             (omap info_memory_info pre) ∧
     processes (self s') =
       processes (self s) ++ seq (length (store s)) (length pre) ∧
     cache (self s') = cache (self s) ∧
     last_full_update (self s') = last_full_update (self s) ∧
     log s' = log s).
Proof.
  induction items as [|proc rest IH]; intros s; cbn [iter_loop].
  - left. split; [constructor|]. exists s. by rewrite app_nil_r.
  - destruct (info_memory_info proc) as [rss|] eqn:Hrss.
    + destruct (IH (append_new (iter_record proc rss) s))
        as [(Hall & s' & -> & H2)
           |(pre & item & post & s' & -> & Hpre & Hitem & -> & H1 & H2 & H3
               & H4 & H5)].
      * left. split; [constructor; [by rewrite Hrss|done]|].
        exists s'. split; [done|]. rewrite H2.
        cbn [append_new set_processes set_store store self processes
               length seq].
        rewrite <- app_assoc, length_app. cbn [length app].
        by rewrite Nat.add_1_r.
      * right. exists (proc :: pre), item, post, s'.
        split_and!; [done| |done|done| | |done..].
        -- constructor; [by rewrite Hrss|done].
        -- rewrite H1. cbn [omap list_omap]. rewrite Hrss. cbn.
           by rewrite <- app_assoc.
        -- rewrite H2. cbn [append_new set_processes set_store store self
                              processes length seq].
           rewrite <- app_assoc, length_app. cbn [length app].
           by rewrite Nat.add_1_r.
    + right. exists [], proc, rest, s. cbn.
      rewrite !app_nil_r. by split_and!.
Qed.

(** Property X9.  When the DLL is absent or gives nothing, a full refresh
    returns the manager's list, with one record for each item of psutil,
    exactly when every item has its [memory_info]; otherwise it raises
    AttributeError at the first item whose [memory_info] is [None], and the
    manager is left with the records of the items before that one as its list,
    and with the cache and the time of the last full update of before. *)
Theorem fallback_refresh_outcome s :
  (get_processes_from_dll w s).1 = [] →
  (Forall (λ it, is_Some (info_memory_info it)) (os_process_iter w) ∧
   ∃ s', get_processes w true s = Return (processes (self s')) s' ∧
     processes (self s')
     = seq (length (store s)) (length (os_process_iter w))) ∨
  (∃ pre item post s',
     get_processes w true s = Raise AttributeError s' ∧
     os_process_iter w = pre ++ item :: post ∧
     Forall (λ it, is_Some (info_memory_info it)) pre ∧
     info_memory_info item = None ∧
     processes (self s') = seq (length (store s)) (length pre) ∧
     cache (self s') = cache (self s) ∧
     last_full_update (self s') = last_full_update (self s)).
Proof.
  intros Hdll. rewrite get_processes_full_eq, Hdll.
  destruct (get_processes_from_dll_state w s) as (e0 & Hs1 & _).
  set (s0 := emit EvProcessIter
               (set_processes [] (get_processes_from_dll w s).2)).
  assert (Hs0 : store s0 = store s ∧ processes (self s0) = [] ∧
                cache (self s0) = cache (self s) ∧
                last_full_update (self s0) = last_full_update (self s))
    by (unfold s0; by rewrite Hs1).
  destruct Hs0 as (S1 & S2 & S3 & S4).
  destruct (iter_loop_cases (os_process_iter w) s0)
    as [(Hall & s' & Hit & H2)
       |(pre & item & post & s' & Hw & Hpre & Hitem & Hit & H1 & H2
           & H3 & H4 & _)].
  - left. split; [done|]. rewrite Hit.
    destruct (iter_loop_spec (os_process_iter w) s0)
      as (news & (G1 & G2 & _) & _ & B & _).
    rewrite Hit in G1, G2. cbn [final] in G1, G2.
    rewrite S1 in G1. rewrite S1, S2 in G2. cbn [app] in G2.
    pose proof (finish_full_grown w s' _ _ G1 G2 B) as Hret.
    destruct (finish_full_frame w s') as (_ & _ & Hprocs & _).
    exists (final (finish_full w s')). rewrite Hprocs. split; [done|].
    by rewrite H2, S1, S2.
  - right. exists pre, item, post, s'. rewrite Hit.
    rewrite S1, S2 in H2. by rewrite H2, H3, H4, S3, S4.
Qed.

Lemma refresh_step_pid (h : heap) p0 p r k :
  has_pid (<[p0 := refresh (h !!! p0) p]> h) r k ↔ has_pid h r k.
Proof.
  rewrite !has_pid_lookup.
  destruct (decide (p0 < length h)) as [Hlt|];
    [|by rewrite list_insert_ge by lia].
  destruct (decide (r = p0)) as [->|Hne].
  - rewrite list_lookup_total_insert_eq by done.
    rewrite refresh_lookup; [done|by apply (bool_decide_unpack _)].
  - by rewrite list_lookup_total_insert_ne.
Qed.

(** The quick refresh on records that all have an identity raises only what
    a query of the operating system raised. *)
Lemma refresh_loop_raises procs : ∀ i s e s',
  (∀ proc, proc ∈ procs → ∃ pid, has_pid (store s) proc pid) →
  refresh_loop w i procs s = Raise e s' →
  ∃ j proc pid,
    procs !! j = Some proc ∧ has_pid (store s) proc pid ∧
    os_Process w (i + j) pid = inl e ∧ vanished_or_denied e = false.
Proof.
  induction procs as [|proc rest IH]; intros i s e s' Hpids;
    cbn [refresh_loop]; [done|].
  destruct (Hpids proc) as [pid Hpid]; [left|].
  unfold has_pid in Hpid. rewrite Hpid.
  assert (Hnext : ∀ s2, (∀ r k, has_pid (store s2) r k ↔ has_pid (store s) r k) →
            refresh_loop w (S i) rest s2 = Raise e s' →
            ∃ j proc0 pid0,
              (proc :: rest) !! j = Some proc0 ∧ has_pid (store s) proc0 pid0 ∧
              os_Process w (i + j) pid0 = inl e ∧ vanished_or_denied e = false).
  { intros s2 Hsame Hraise.
    destruct (IH (S i) s2 e s') as (j & proc0 & pid0 & Hj & Hp & Hos & Hv);
      [|done|].
    - intros proc0 Hin. destruct (Hpids proc0) as [pid0 Hpid0]; [by right|].
      exists pid0. by apply Hsame.
    - exists (S j), proc0, pid0. split_and!; [done|by apply Hsame| |done].
      by rewrite Nat.add_succ_r. }
  destruct (os_Process w i pid) as [e1|p] eqn:Hos.
  - destruct (vanished_or_denied e1) eqn:Hv.
    + by apply Hnext.
    + intros [= <- _]. exists 0, proc, pid. rewrite Nat.add_0_r. by split_and!.
  - apply Hnext. intros r k. cbn [store set_store emit].
    apply refresh_step_pid.
Qed.

(** Property X10.  In a state the manager reaches while the DLL reports
    integer pids, a quick refresh never fails on a record of the list: it
    returns the manager's list, or raises what the operating system raised for
    the process of a listed record, which is neither NoSuchProcess nor
    AccessDenied. *)
Theorem quick_refresh_outcome s :
  reachable s →
  (∃ s', get_processes w false s = Return (processes (self s)) s') ∨
  (∃ e s' j proc pid,
     get_processes w false s = Raise e s' ∧
     processes (self s) !! j = Some proc ∧ has_pid (store s) proc pid ∧
     os_Process w j pid = inl e ∧ vanished_or_denied e = false).
Proof.
  intros (I1 & I2 & I3 & _)%reachable_inv.
  rewrite get_processes_quick_eq.
  destruct (refresh_loop w 0 (processes (self s)) s) as [[] s'|e s'] eqn:Hloop.
  - left. exists s'.
    destruct (refresh_loop_frame w (processes (self s)) 0 s) as (F1 & _).
    rewrite Hloop in F1. cbn [final] in F1. by rewrite F1.
  - right.
    destruct (refresh_loop_raises (processes (self s)) 0 s e s')
      as (j & proc & pid & Hj & Hp & Hos & Hv); [|done|].
    + intros proc Hin%I2. by apply full_record_has_pid.
    + by exists e, s', j, proc, pid.
Qed.

(** The records the DLL loop appends carry the identities of the accepted
    entries, in the order of the entries. *)
Lemma dll_entry_pids i proc s :
  ∃ news,
    grows s (dll_entry w i proc s) news ∧ Forall built news ∧
    Forall2 (λ d pid, getitem_pid d = inr pid) news
      (option_list (accepted w i proc)).
Proof.
  assert (Hskip : ∃ news : list pydict,
            grows s s news ∧ Forall built news ∧
            Forall2 (λ d pid, getitem_pid d = inr pid) news []).
  { exists []. split_and!; [apply grows_refl|done|constructor]. }
  assert (Hone : ∀ p d, getitem_pid d = inr p → built d →
            ∃ news, grows s (append_new d (emit (EvProcess p) s)) news ∧
              Forall built news ∧
              Forall2 (λ d pid, getitem_pid d = inr pid) news [p]).
  { intros p d Hd Hb. exists [d]. split_and!.
    - apply (grows_trans _ _ _ [] [d] (grows_emit _ _) (grows_append _ _)).
    - by constructor.
    - by repeat constructor. }
  unfold dll_entry, accepted.
  destruct (proc !! "pid") as [pid|]; [|done].
  destruct (proc !! "name") as [name|]; [|by destruct pid].
  destruct (proc !! "memory_kb") as [mem|]; [|by destruct pid].
  destruct pid as [|p|f|str]; try done.
  pose proof (built_new_proc p name mem) as Hb.
  assert (Hp : getitem_pid (new_proc (VInt p) name mem) = inr p).
  { unfold getitem_pid. by rewrite (proj1 (new_proc_lookup _ _ _)). }
  destruct (os_Process w i p) as [e|info].
  - destruct (vanished_or_denied e); cbn [option_list].
    + by apply Hone.
    + exists []. split_and!; [apply grows_emit|done|constructor].
  - cbn [option_list]. apply Hone; [|by apply built_enrich].
    unfold getitem_pid in *.
    rewrite (proj2 (proj2 (proj2 (enrich_lookup _ info)))); [done|].
    by apply (bool_decide_unpack _).
Qed.

Lemma accepted_pids_cons i proc rest :
  accepted_pids w i (proc :: rest)
  = option_list (accepted w i proc) ++ accepted_pids w (S i) rest.
Proof. cbn [accepted_pids]. by destruct (accepted w i proc). Qed.

Lemma dll_loop_pids entries : ∀ i s,
  ∃ news,
    grows s (dll_loop w i entries s) news ∧ Forall built news ∧
    Forall2 (λ d pid, getitem_pid d = inr pid) news (accepted_pids w i entries).
Proof.
  induction entries as [|proc rest IH]; intros i s.
  - exists []. split_and!; [apply grows_refl|done|constructor].
  - rewrite accepted_pids_cons. cbn [dll_loop].
    destruct (dll_entry_pids i proc s) as (n1 & G1 & B1 & P1).
    destruct (IH (S i) (dll_entry w i proc s)) as (n2 & G2 & B2 & P2).
    exists (n1 ++ n2). split_and!.
    + by eapply grows_trans.
    + by apply Forall_app.
    + by apply Forall2_app.
Qed.

Lemma has_pid_fresh (h0 news : heap) pids :
  Forall2 (λ d pid, getitem_pid d = inr pid) news pids →
  Forall2 (has_pid (h0 ++ news)) (seq (length h0) (length news)) pids.
Proof.
  revert h0 pids. induction news as [|d news IH]; intros h0 pids H.
  - apply Forall2_nil_inv_l in H as ->. constructor.
  - apply Forall2_cons_inv_l in H as (pid & pids' & Hd & Hrest & ->).
    cbn [length seq]. constructor.
    + unfold has_pid. by rewrite list_lookup_total_middle.
    + specialize (IH (h0 ++ [d]) pids' Hrest).
      rewrite <- app_assoc, length_app in IH. cbn [length app] in IH.
      by rewrite Nat.add_1_r in IH.
Qed.

(** Property X11.  In a state the manager reaches while the DLL reports
    integer pids, when the DLL gives a non-empty list, with integer pids
    again, the full refresh returns, and its list has one record for each
    entry the loop accepts, in the order of the DLL's list, each with the
    identity of its entry: an entry is accepted when it has a "pid", a "name"
    and a "memory_kb" and the query for its process is answered or raises
    NoSuchProcess or AccessDenied. *)
Theorem dll_refresh_keeps_order s entry entries :
  reachable s →
  integer_pids w = true →
  (get_processes_from_dll w s).1 = entry :: entries →
  ∃ s', get_processes w true s = Return (processes (self s')) s' ∧
    processes (self s') =
      seq (length (store s))
          (length (accepted_pids w 0 (entry :: entries))) ∧
    Forall2 (has_pid (store s')) (processes (self s'))
      (accepted_pids w 0 (entry :: entries)).
Proof.
  intros (_ & _ & _ & I4 & _)%reachable_inv _ Hdll.
  rewrite get_processes_full_eq, Hdll.
  destruct (get_processes_from_dll_state w s) as (e0 & Hs1 & _).
  destruct (dll_loop_pids (entry :: entries) 0
              (set_processes [] (get_processes_from_dll w s).2))
    as (news & (G1 & G2 & G3 & _) & B & P).
  set (s3 := dll_loop w 0 (entry :: entries) _) in *.
  rewrite Hs1 in G1, G2, G3.
  cbn [set_processes store self processes cache app] in G1, G2, G3.
  pose proof (Forall2_length _ _ _ P) as Hlen.
  apply has_pid_fresh with (h0 := store s) in P. rewrite <- G1, <- G2 in P.
  destruct (update_identities (cache (self s3)) (os_time_update w)
              (store s3) (processes (self s3)) _ ltac:(rewrite G1, G3; by apply cache_ok_app) P)
    as (h' & c' & Hupd & Hpids' & _).
  { rewrite G2. apply NoDup_seq. }
  { intros k c Hget Hin. rewrite G3 in Hget.
    pose proof (has_pid_lt _ _ _ (I4 k c Hget)).
    rewrite G2 in Hin. apply elem_of_seq in Hin. lia. }
  unfold finish_full. rewrite Hupd.
  exists {| store := h';
            self := {| processes := processes (self s3); cache := c';
                       last_full_update := os_time_done w;
                       dll := dll (self s3) |};
            log := log s3 |}.
  cbn [store self processes]. split_and!; [done|by rewrite G2, Hlen|done].
Qed.

End outcomes.

(** ** ProcessManager: failures of single records *)

Section per_record_failures.
Import ProcessManager.

(** The end of a full refresh on the records it has just built: the list
    goes through the cache, which carries static fields over into the
    records it reaches before the new generation is full. *)
Lemma finish_full_carries w s1 (h0 news : heap) :
  store s1 = h0 ++ news →
  processes (self s1) = seq (length h0) (length news) →
  Forall built news →
  cache_ok (ProcessCache._cache (cache (self s1))) h0 →
  ∃ s' pids n,
    finish_full w s1 = Return (processes (self s')) s' ∧
    processes (self s') = processes (self s1) ∧
    Forall2 (has_pid (store s1)) (processes (self s1)) pids ∧
    Forall2 (has_pid (store s')) (processes (self s')) pids ∧
    ProcessCache._cache (cache (self s'))
      = OrderedDict.set_all [] (take n (zip pids (processes (self s')))) ∧
    (n = length (processes (self s')) ∨
     (ProcessCache.max_size (cache (self s1))
      ≤ Z.of_nat (length (ProcessCache._cache (cache (self s')))))%Z) ∧
    (∀ m, 0 < m < n →
       (Z.of_nat (length (OrderedDict.set_all []
                            (take m (zip pids (processes (self s'))))))
        < ProcessCache.max_size (cache (self s1)))%Z) ∧
    ∀ i proc pid,
      processes (self s1) !! i = Some proc → pids !! i = Some pid →
      store s' !!! proc =
      if decide (i < n) then
        match OrderedDict.get (ProcessCache._cache (cache (self s1))) pid with
        | Some cached =>
            if ProcessCache.in_window (cache (self s1)) (os_time_update w)
            then copy_fields ProcessCache._static_fields
                   (h0 !!! cached) (store s1 !!! proc)
            else store s1 !!! proc
        | None => store s1 !!! proc
        end
      else store s1 !!! proc.
Proof.
  intros Hstore Hprocs Hb Hok.
  destruct (built_has_pid news h0 Hb) as [pids Hpids].
  rewrite <- Hstore, <- Hprocs in Hpids.
  assert (Hnd : NoDup (processes (self s1)))
    by (rewrite Hprocs; apply NoDup_seq).
  assert (Hok1 : cache_ok (ProcessCache._cache (cache (self s1))) (store s1))
    by (rewrite Hstore; by apply cache_ok_app).
  assert (Hdisj : ∀ k c,
            OrderedDict.get (ProcessCache._cache (cache (self s1))) k = Some c →
            c ∉ processes (self s1)).
  { intros k c Hget Hin. pose proof (has_pid_lt _ _ _ (Hok k c Hget)).
    rewrite Hprocs in Hin. apply elem_of_seq in Hin. lia. }
  destruct (update_identities (cache (self s1)) (os_time_update w) (store s1)
              (processes (self s1)) pids Hok1 Hpids Hnd Hdisj)
    as (h' & c' & Hupd & Hpids' & _).
  destruct (update_loop_spec (cache (self s1)) (os_time_update w)
              (processes (self s1)) pids (store s1) [] Hpids Hnd)
    as (n & h1 & Heq & Hn & Hstop & Hmin & _ & Hframe & Hcont).
  specialize (Hcont Hdisj).
  assert (h1 = h' ∧
          ProcessCache._cache c'
          = OrderedDict.set_all [] (take n (zip pids (processes (self s1)))))
    as [-> Hcache].
  { revert Hupd. unfold ProcessCache.update. rewrite Heq. by intros [= -> <-]. }
  exists {| store := h';
            self := {| processes := processes (self s1); cache := c';
                       last_full_update := os_time_done w;
                       dll := dll (self s1) |};
            log := log s1 |}, pids, n.
  unfold finish_full. rewrite Hupd. cbn [store self processes cache].
  split_and!; [done|done|done|done|done| |done|].
  - destruct Hstop as [->|Hfull]; [by left|right]. by rewrite Hcache.
  - intros i proc pid Hi Hp. case_decide as Hlt.
    + rewrite (Hcont i proc pid Hlt Hi Hp).
      destruct (OrderedDict.get _ pid) as [cached|] eqn:Hget; [|done].
      destruct (ProcessCache.in_window _ _); [|done].
      pose proof (has_pid_lt _ _ _ (Hok pid cached Hget)).
      by rewrite Hstore, (lookup_total_app_l h0) by done.
    + apply Hframe. intros Hin. apply elem_of_take in Hin as (j & Hj & Hjn).
      pose proof (NoDup_lookup _ _ _ _ Hnd Hi Hj). lia.
Qed.

(** The position, in the manager's list, of a record the loops appended. *)
Lemma grown_lookup s s' news d :
  grows s s' news → processes (self s) = [] → d ∈ news →
  ∃ i, processes (self s') !! i = Some (length (store s) + i) ∧
       store s' !!! (length (store s) + i) = d.
Proof.
  intros (G1 & G2 & _) Hnil [i Hi]%list_elem_of_lookup_1.
  exists i. rewrite G1, G2, Hnil. split.
  - cbn [app]. apply lookup_seq. split; [done|]. by apply lookup_lt_Some in Hi.
  - rewrite lookup_total_app_r by lia.
    replace (length (store s) + i - length (store s)) with i by lia.
    by apply list_lookup_total_correct.
Qed.

(** The quick refresh writes to no object outside the list, whether it
    returns or raises. *)
Lemma refresh_loop_outside w procs : ∀ i s r,
  r ∉ procs →
  store (final (refresh_loop w i procs s)) !!! r = store s !!! r.
Proof.
  induction procs as [|proc rest IH]; intros i s r Hr; cbn [refresh_loop];
    [done|].
  apply not_elem_of_cons in Hr as [Hne Hr].
  destruct (getitem_pid (store s !!! proc)) as [e|pid]; [done|].
  destruct (os_Process w i pid) as [e|p].
  - destruct (vanished_or_denied e); [by rewrite IH|done].
  - rewrite IH by done. cbn [store set_store emit].
    by rewrite list_lookup_total_insert_ne.
Qed.

(** What the quick refresh leaves in the record at position [j], when the
    queries before it are answered or raise NoSuchProcess or AccessDenied:
    whatever happens after it. *)
Lemma refresh_loop_prefix w procs : ∀ i s j proc pid,
  NoDup procs →
  procs !! j = Some proc → has_pid (store s) proc pid →
  (∀ k prock, k < j → procs !! k = Some prock →
     ∃ pidk, has_pid (store s) prock pidk ∧
             ∀ e, os_Process w (i + k) pidk = inl e →
                  vanished_or_denied e = true) →
  store (final (refresh_loop w i procs s)) !!! proc =
  match os_Process w (i + j) pid with
  | inr p => refresh (store s !!! proc) p
  | inl _ => store s !!! proc
  end.
Proof.
  induction procs as [|proc0 rest IH]; intros i s j proc pid Hnd Hj Hpid Hpre;
    [done|].
  apply NoDup_cons in Hnd as [Hnotin Hnd]. cbn [refresh_loop].
  destruct j as [|j]; cbn [lookup list_lookup] in Hj.
  - injection Hj as ->. rewrite Nat.add_0_r.
    pose proof Hpid as Hpid'. unfold has_pid in Hpid'. rewrite Hpid'.
    destruct (os_Process w i pid) as [e|p].
    + destruct (vanished_or_denied e); [|done].
      by rewrite refresh_loop_outside.
    + rewrite refresh_loop_outside by done. cbn [store set_store emit].
      apply list_lookup_total_insert_eq. by eapply has_pid_lt.
  - destruct (Hpre 0 proc0) as (pid0 & Hpid0 & Hswallow0); [lia|done|].
    rewrite Nat.add_0_r in Hswallow0.
    assert (Hne : proc ≠ proc0).
    { intros ->. apply Hnotin. by eapply list_elem_of_lookup_2. }
    unfold has_pid in Hpid0. rewrite Hpid0.
    replace (i + S j) with (S i + j) by lia.
    destruct (os_Process w i pid0) as [e|p].
    + rewrite (Hswallow0 e eq_refl).
      apply (IH (S i) (emit (EvProcess pid0) s) j proc pid); try done.
      intros k prock Hk Hlook.
      destruct (Hpre (S k) prock) as (pidk & ? & Hsw); [lia|done|].
      exists pidk. split; [done|].
      by replace (S i + k) with (i + S k) by lia.
    + match goal with |- context [refresh_loop w (S i) rest ?s2] =>
        rewrite (IH (S i) s2 j proc pid) end; try done.
      * cbn [store set_store emit].
        by rewrite list_lookup_total_insert_ne.
      * by apply refresh_step_pid.
      * intros k prock Hk Hlook.
        destruct (Hpre (S k) prock) as (pidk & ? & Hsw); [lia|done|].
        exists pidk. split; [by apply refresh_step_pid|].
        by replace (S i + k) with (i + S k) by lia.
Qed.

(** Claim C8, as amended.  In a full refresh served by a DLL that reports
    integer pids, from a state where every cached record carries the
    identity it is cached under, the refresh returns, and there is a cut
    [n], the number of records the cache reaches before its new generation
    is full.  An entry with pid, name and memory_kb whose query is answered
    or raises NoSuchProcess or AccessDenied has a record in the returned
    list, under its identity; that record has the entry's memory_kb, and the
    cpu_percent and status that the query gave, or 0.0 and 'running' when
    the query raised.  Its username is what the query gave, or 'N/A' when it
    raised, except for a record before the cut whose identity is in the
    prior generation of the cache when [os_time_update - _last_update < 2.0]:
    it has the username of the prior generation's record.  A quick refresh of
    distinct held records with an integer identity leaves the manager's
    list as it is; it returns that list, unless a query raised something
    other than these two, which the call then raises; and when the queries
    before a record's are answered or raise one of these two, the record is
    unchanged if its own query raised, and has its refreshed fields if it
    was answered, whatever happens after it. *)
Theorem per_record_failures_are_swallowed :
  (∀ w s d entries,
     dll (self s) = Some d →
     os_GetProcessesInfo w = DllJson (inr entries) →
     os_FreeProcessInfoMemory w = None →
     entries ≠ [] →
     integer_pids w = true →
     cache_ok (ProcessCache._cache (cache (self s))) (store s) →
     ∃ s' pids n,
       get_processes w true s = Return (processes (self s')) s' ∧
       Forall2 (has_pid (store s')) (processes (self s')) pids ∧
       ProcessCache._cache (cache (self s'))
         = OrderedDict.set_all [] (take n (zip pids (processes (self s')))) ∧
       (n = length (processes (self s')) ∨
        (ProcessCache.max_size (cache (self s))
         ≤ Z.of_nat (length (ProcessCache._cache (cache (self s')))))%Z) ∧
       (∀ m, 0 < m < n →
          (Z.of_nat (length (OrderedDict.set_all []
                               (take m (zip pids (processes (self s'))))))
           < ProcessCache.max_size (cache (self s)))%Z) ∧
       ∀ j proc p name memory_kb,
         entries !! j = Some proc →
         proc !! "pid" = Some (VInt p) → proc !! "name" = Some name →
         proc !! "memory_kb" = Some memory_kb →
         (∀ e, os_Process w j p = inl e → vanished_or_denied e = true) →
         ∃ i r,
           processes (self s') !! i = Some r ∧ pids !! i = Some p ∧
           (store s' !!! r) !! "memory_kb" = Some memory_kb ∧
           (store s' !!! r) !! "cpu_percent"
             = Some (VFloat match os_Process w j p with
                            | inr info => pi_cpu_percent info
                            | inl _ => 0
                            end) ∧
           (store s' !!! r) !! "status"
             = Some (VStr match os_Process w j p with
                          | inr info => pi_status info
                          | inl _ => "running"
                          end) ∧
           (store s' !!! r) !! "username"
             = let fresh := match os_Process w j p with
                            | inr info => or_NA (pi_username info)
                            | inl _ => VStr "N/A"
                            end in
               match OrderedDict.get (ProcessCache._cache (cache (self s))) p
               with
               | Some cached =>
                   if decide (i < n) then
                     if (os_time_update w
                         - ProcessCache._last_update (cache (self s)) <? 2)%float
                     then match (store s !!! cached) !! "username" with
                          | Some user => Some user
                          | None => Some fresh
                          end
                     else Some fresh
                   else Some fresh
               | None => Some fresh
               end) ∧
  (∀ w s,
     NoDup (processes (self s)) →
     (∀ proc, proc ∈ processes (self s) → ∃ pid, has_pid (store s) proc pid) →
     self (final (get_processes w false s)) = self s ∧
     match get_processes w false s with
     | Return l _ => l = processes (self s)
     | Raise e _ =>
         ∃ j proc pid,
           processes (self s) !! j = Some proc ∧ has_pid (store s) proc pid ∧
           os_Process w j pid = inl e ∧ vanished_or_denied e = false
     end ∧
     ∀ j proc pid,
       processes (self s) !! j = Some proc → has_pid (store s) proc pid →
       (∀ k prock pidk,
          k < j → processes (self s) !! k = Some prock →
          has_pid (store s) prock pidk →
          ∀ e, os_Process w k pidk = inl e → vanished_or_denied e = true) →
       store (final (get_processes w false s)) !!! proc =
       match os_Process w j pid with
       | inr p => refresh (store s !!! proc) p
       | inl _ => store s !!! proc
       end).
Proof.
  split.
  - intros w s handle entries Hdll Hreply Hfree Hne _ Hok.
    assert (Hdata : (get_processes_from_dll w s).1 = entries).
    { unfold get_processes_from_dll. by rewrite Hdll, Hreply, Hfree. }
    destruct (get_processes_from_dll_state w s) as (e0 & Hs0 & _).
    set (s0 := set_processes [] (get_processes_from_dll w s).2).
    assert (Hstore0 : store s0 = store s) by (unfold s0; by rewrite Hs0).
    assert (Hcache0 : cache (self s0) = cache (self s))
      by (unfold s0; by rewrite Hs0).
    destruct (dll_loop_spec w entries 0 s0)
      as (news & evs & G & _ & _ & B & C).
    set (s1 := dll_loop w 0 entries s0) in *.
    pose proof G as (G1 & G2 & G3 & _).
    rewrite Hstore0 in G1. rewrite Hstore0 in G2. rewrite Hcache0 in G3.
    cbn [s0 set_processes self processes app] in G2.
    destruct (finish_full_carries w s1 (store s) news G1 G2 B)
      as (s' & pids & n & Hret & Hprocs & Hpids1 & Hpids' & Hgen & Hstop
          & Hmin & Hrec); [by rewrite G3|].
    rewrite G3 in Hstop, Hmin, Hrec.
    exists s', pids, n. split_and!; [|done..|].
    { rewrite get_processes_full_eq, Hdata.
      by destruct entries as [|entry entries]. }
    intros j proc p name mem Hj Hp Hn Hm Hswallowed.
    specialize (C j proc p name mem Hj Hp Hn Hm). cbn [Nat.add] in C.
    set (d := match os_Process w j p with
              | inr info => enrich (new_proc (VInt p) name mem) info
              | inl _ => new_proc (VInt p) name mem
              end).
    assert (Hd : d ∈ news).
    { unfold d. destruct (os_Process w j p) as [e|info]; [|done].
      by apply C, Hswallowed. }
    destruct (new_proc_lookup (VInt p) name mem)
      as (Npid & _ & Nmem & Ncpu & Nstatus & Nuser).
    assert (Hfields :
      d !! "pid" = Some (VInt p) ∧ d !! "memory_kb" = Some mem ∧
      d !! "cpu_percent"
        = Some (VFloat match os_Process w j p with
                       | inr info => pi_cpu_percent info
                       | inl _ => 0
                       end) ∧
      d !! "status"
        = Some (VStr match os_Process w j p with
                     | inr info => pi_status info
                     | inl _ => "running"
                     end) ∧
      d !! "username"
        = Some match os_Process w j p with
               | inr info => or_NA (pi_username info)
               | inl _ => VStr "N/A"
               end).
    { unfold d. destruct (os_Process w j p) as [e|info]; [done|].
      destruct (enrich_lookup (new_proc (VInt p) name mem) info)
        as (Ecpu & Estatus & Euser & Eframe).
      rewrite !Eframe by (by apply (bool_decide_unpack _)). done. }
    destruct Hfields as (Dpid & Dmem & Dcpu & Dstatus & Duser).
    destruct (grown_lookup s0 s1 news d G eq_refl Hd) as (i & Hi & Hrd).
    rewrite Hstore0 in Hi, Hrd.
    set (r := length (store s) + i) in *.
    destruct (Forall2_lookup_l _ _ _ _ _ Hpids1 Hi) as (pid & Hpid & Hhas).
    assert (pid = p) as ->.
    { apply has_pid_lookup in Hhas. rewrite Hrd, Dpid in Hhas.
      by injection Hhas. }
    exists i, r. rewrite Hprocs. split_and!; [done|done|..];
      rewrite (Hrec i r p Hi Hpid), Hrd.
    + case_decide; [|done].
      destruct (OrderedDict.get _ p); [|done].
      destruct (ProcessCache.in_window _ _); [|done].
      rewrite copy_fields_lookup.
      by rewrite decide_False by (by apply (bool_decide_unpack _)).
    + case_decide; [|done].
      destruct (OrderedDict.get _ p); [|done].
      destruct (ProcessCache.in_window _ _); [|done].
      rewrite copy_fields_lookup.
      by rewrite decide_False by (by apply (bool_decide_unpack _)).
    + case_decide; [|done].
      destruct (OrderedDict.get _ p); [|done].
      destruct (ProcessCache.in_window _ _); [|done].
      rewrite copy_fields_lookup.
      by rewrite decide_False by (by apply (bool_decide_unpack _)).
    + cbn zeta.
      fold (ProcessCache.in_window (cache (self s)) (os_time_update w)).
      destruct (decide (i < n));
        destruct (OrderedDict.get _ p) as [cached|]; try done.
      destruct (ProcessCache.in_window _ _); [|done].
      rewrite copy_fields_lookup.
      rewrite decide_True by (by apply (bool_decide_unpack _)).
      by destruct ((store s !!! cached) !! "username").
  - intros w s Hnd Hpids.
    pose proof (refresh_loop_frame w (processes (self s)) 0 s) as (R1 & _).
    assert (Hfinal : final (get_processes w false s)
                     = final (refresh_loop w 0 (processes (self s)) s)).
    { rewrite get_processes_quick_eq. by destruct (refresh_loop _ _ _ _). }
    rewrite Hfinal. split_and!; [done| |].
    + rewrite get_processes_quick_eq.
      destruct (refresh_loop w 0 (processes (self s)) s) as [[] s'|e s']
        eqn:Hloop; cbn [final] in R1; [by rewrite R1|].
      by apply (refresh_loop_raises w (processes (self s)) 0 s e s').
    + intros j proc pid Hj Hpid Hpre.
      apply (refresh_loop_prefix w (processes (self s)) 0 s j proc pid);
        try done.
      intros k prock Hk Hlook.
      destruct (Hpids prock) as [pidk Hpidk];
        [by eapply list_elem_of_lookup_2|].
      exists pidk. split; [done|]. by apply (Hpre k prock pidk).
Qed.

End per_record_failures.

(** ** TaskManagerApp: the histories of the charts *)

Section charts.
Import TaskManagerApp.

Lemma push_length history x :
  length history ≤ 60 →
  length (push history x) = Nat.min 60 (S (length history)).
Proof.
  intros Hle. unfold push.
  destruct (60 <? length (history ++ [x])) eqn:Hfull.
  - apply Nat.ltb_lt in Hfull. rewrite length_drop.
    rewrite length_app in *. cbn [length] in *. lia.
  - apply Nat.ltb_ge in Hfull. rewrite length_app in *. cbn [length] in *. lia.
Qed.

Lemma push_lastn history x rest :
  length history ≤ 60 →
  lastn 60 (push history x ++ rest) = lastn 60 (history ++ x :: rest).
Proof.
  intros Hle. unfold push.
  replace (history ++ x :: rest) with ((history ++ [x]) ++ rest)
    by (by rewrite <- app_assoc).
  destruct (60 <? length (history ++ [x])) eqn:Hfull; [|done].
  apply Nat.ltb_lt in Hfull. unfold lastn.
  destruct (history ++ [x]) as [|y l] eqn:Hl; [done|].
  assert (length l = 60) as Hlen.
  { apply (f_equal length) in Hl. rewrite length_app in Hl.
    cbn [length] in *. lia. }
  assert (length ((y :: l) ++ rest) - 60 = S (length rest)) as ->
    by (rewrite length_app; cbn [length]; lia).
  assert (length (drop 1 (y :: l) ++ rest) - 60 = length rest) as ->
    by (cbn [drop]; rewrite drop_0, length_app; lia).
  done.
Qed.

Lemma lastn_short {A} n (l : list A) : length l ≤ n → lastn n l = l.
Proof. intros H. unfold lastn. by replace (length l - n) with 0 by lia. Qed.

Lemma lastn_length {A} n (l : list A) : length (lastn n l) ≤ n.
Proof. unfold lastn. rewrite length_drop. lia. Qed.

Lemma update_charts_lengths w self :
  length (memory_history self) ≤ length (cpu_history self) ≤ 60 →
  length (memory_history (update_charts w self))
    ≤ length (cpu_history (update_charts w self)) ≤ 60.
Proof.
  intros [Hm Hc]. unfold update_charts.
  destruct (_ <? 1)%float; [done|].
  destruct (psutil_cpu_percent w) as [cpu|]; [|done].
  pose proof (push_length (cpu_history self) cpu Hc) as Hpc.
  destruct (cpu_chart_drawn w); cbn [negb memory_history cpu_history];
    [|lia].
  destruct (psutil_virtual_memory_used w) as [used|];
    cbn [memory_history cpu_history]; [|lia].
  destruct (int_truediv_1024 used) as [q|];
    cbn [memory_history cpu_history]; [|lia].
  rewrite push_length by lia. lia.
Qed.

(** Property X12.  However the clock, psutil and the drawing behave, the two
    histories behind the charts never grow beyond 60 samples, and the memory
    history is never longer than the CPU history. *)
Theorem charts_histories_bounded ws now :
  length (memory_history (run ws (__init__ now)))
    ≤ length (cpu_history (run ws (__init__ now))) ≤ 60.
Proof.
  unfold run.
  assert (H0 : length (memory_history (__init__ now))
               ≤ length (cpu_history (__init__ now)) ≤ 60) by (cbn; lia).
  revert H0. generalize (__init__ now).
  induction ws as [|w ws IH]; intros self H0; cbn [foldl]; [done|].
  by apply IH, update_charts_lengths.
Qed.

Lemma update_charts_samples w self rest_cpu rest_mem :
  length (cpu_history self) ≤ 60 → length (memory_history self) ≤ 60 →
  let self' := update_charts w self in
  length (cpu_history self') ≤ 60 ∧ length (memory_history self') ≤ 60 ∧
  lastn 60 (cpu_history self'
            ++ cpu_samples rest_cpu (update_time self'))
  = lastn 60 (cpu_history self
              ++ cpu_samples (w :: rest_cpu) (update_time self)) ∧
  lastn 60 (memory_history self'
            ++ memory_samples rest_mem (update_time self'))
  = lastn 60 (memory_history self
              ++ memory_samples (w :: rest_mem) (update_time self)).
Proof.
  intros Hc Hm. cbn zeta. unfold update_charts, memory_sample.
  cbn [cpu_samples memory_samples]. unfold memory_sample.
  destruct (_ <? 1)%float; [done|].
  destruct (psutil_cpu_percent w) as [cpu|];
    cbn [memory_history cpu_history update_time]; [|done].
  pose proof (push_length (cpu_history self) cpu Hc) as Hpc.
  destruct (cpu_chart_drawn w);
    cbn [negb memory_history cpu_history update_time];
    [|split_and!; [lia|done|by apply push_lastn|done]].
  destruct (psutil_virtual_memory_used w) as [used|];
    cbn [memory_history cpu_history update_time];
    [|split_and!; [lia|done|by apply push_lastn|done]].
  destruct (int_truediv_1024 used) as [q|];
    cbn [memory_history cpu_history update_time];
    [|split_and!; [lia|done|by apply push_lastn|done]].
  pose proof (push_length (memory_history self) (q / 1024)%float Hm).
  split_and!; [lia|lia|by apply push_lastn|by apply push_lastn].
Qed.

(** Property X13.  Each chart plots the latest samples, at most 60, in the
    order they were taken: the CPU history is the last 60 of the CPU samples
    of the calls that passed the one-second throttle, and the memory history
    the last 60 of the memory samples of these calls. *)
Theorem charts_show_latest_samples ws now :
  cpu_history (run ws (__init__ now)) = lastn 60 (cpu_samples ws now) ∧
  memory_history (run ws (__init__ now)) = lastn 60 (memory_samples ws now).
Proof.
  unfold run.
  assert (Hgen : ∀ self,
    length (cpu_history self) ≤ 60 → length (memory_history self) ≤ 60 →
    cpu_history (foldl (λ self w, update_charts w self) self ws)
    = lastn 60 (cpu_history self ++ cpu_samples ws (update_time self)) ∧
    memory_history (foldl (λ self w, update_charts w self) self ws)
    = lastn 60 (memory_history self ++ memory_samples ws (update_time self))).
  { induction ws as [|w ws IH]; intros self Hc Hm.
    - cbn [foldl cpu_samples memory_samples]. rewrite !app_nil_r.
      by rewrite !lastn_short.
    - cbn [foldl].
      destruct (update_charts_samples w self ws ws Hc Hm)
        as (Hc' & Hm' & <- & <-).
      by apply IH. }
  apply (Hgen (__init__ now)); cbn; lia.
Qed.

End charts.

(** ** Further scenarios *)

Section more_scenarios.
Import Scenario Examples.

Section more_cache_scenarios.
Import ProcessCache.

(** A fresh cache and the records a, b, c, d, e: every cached record is one
    of the five, under its own identity. *)
Lemma update_generation_example :
  ∃ h' c',
    update (__init__ 500) store5 [0; 1; 2; 3; 4] 100
      = (h', inr (c', [0; 1; 2; 3; 4])) ∧
    length (_cache c') ≤ 5 ∧
    ∀ k r, OrderedDict.get (_cache c') k = Some r →
           ∃ i, [0; 1; 2; 3; 4] !! i = Some r ∧
                [1; 2; 3; 4; 5]%Z !! i = Some k.
Proof.
  apply (update_generation_from_observed (__init__ 500) 100 store5
           [0; 1; 2; 3; 4] [1; 2; 3; 4; 5]%Z).
  - repeat constructor.
  - by apply (bool_decide_unpack _).
Defined.

Lemma cache42_ok : cache_ok (_cache cache42) store42.
Proof.
  intros k r. cbn [_cache cache42 OrderedDict.get].
  case_decide as Hk; [|done]. intros [= <-]. by subst k.
Qed.

Lemma cache42_apart k c :
  OrderedDict.get (_cache cache42) k = Some c → c ∉ [1].
Proof.
  cbn [_cache cache42 OrderedDict.get].
  case_decide; [|done]. intros [= <-]. by apply (bool_decide_unpack _).
Qed.

(** Identity 42 cached as "alpha" and observed again as "beta": after the
    update the observed record still has the identity 42, and so has the
    record cached under 42. *)
Lemma update_keeps_identities_example :
  ∃ h' c',
    update cache42 store42 [1] 101 = (h', inr (c', [1])) ∧
    Forall2 (has_pid h') [1] [42%Z] ∧
    cache_ok (_cache c') h'.
Proof.
  apply (update_keeps_identities cache42 101 store42 [1] [42%Z]).
  - apply cache42_ok.
  - repeat constructor.
  - by apply (bool_decide_unpack _).
  - apply cache42_apart.
Defined.

(** The same update, done twice: the second changes the timestamp only. *)
Lemma update_twice_example :
  ∃ h1 c1,
    update cache42 store42 [1] 101 = (h1, inr (c1, [1])) ∧
    ∀ t2, update c1 h1 [1] t2
          = (h1, inr ({| _cache := _cache c1; max_size := max_size c1;
                         _last_update := t2 |}, [1])).
Proof.
  apply (update_twice cache42 store42 [1] [42%Z] 101).
  - apply cache42_ok.
  - repeat constructor.
  - by apply (bool_decide_unpack _).
  - apply cache42_apart.
Defined.

(** Five records in a cache of capacity 500, updated at time 100: asked
    about the same five identities the policy goes by the clock. *)
Lemma policy_after_update_example :
  ∃ h' c',
    update (__init__ 500) store5 [0; 1; 2; 3; 4] 100
      = (h', inr (c', [0; 1; 2; 3; 4])) ∧
    ∀ now, needs_full_update c' (list_to_set [1; 2; 3; 4; 5]%Z) now
           = (5 <? now - 100)%float.
Proof.
  apply (policy_after_update_that_fits (__init__ 500) 100 store5
           [0; 1; 2; 3; 4] [1; 2; 3; 4; 5]%Z).
  - repeat constructor.
  - by apply (bool_decide_unpack _).
  - simpl. lia.
Defined.

(** Seven records and a cache of capacity 0, which caches the first of
    them: a full update is always due. *)
Lemma policy_saturated_example :
  ∃ h' c',
    update (__init__ 0) store7 [0; 1; 2; 3; 4; 5; 6] 100
      = (h', inr (c', [0; 1; 2; 3; 4; 5; 6])) ∧
    ∀ now, needs_full_update c'
             (list_to_set [1; 2; 3; 4; 5; 6; 7]%Z) now = true.
Proof.
  apply (policy_saturated (__init__ 0) 100 store7
           [0; 1; 2; 3; 4; 5; 6] [1; 2; 3; 4; 5; 6; 7]%Z).
  - repeat constructor.
  - by apply (bool_decide_unpack _).
  - simpl. lia.
Defined.

(** Capacity 2 and four records of which the first two have the identity
    1: the generation holds the second and the third record, not the first
    two. *)
Lemma update_caches_later_duplicate :
  has_pid store_dup 0 1 ∧ has_pid store_dup 1 1 ∧
  has_pid store_dup 2 2 ∧ has_pid store_dup 3 3 ∧
  (update (__init__ 2) store_dup [0; 1; 2; 3] 100).2
    = inr ({| _cache := [(1%Z, 1); (2%Z, 2)]; max_size := 2;
              _last_update := 100 |}, [0; 1; 2; 3]).
Proof. split_and!; vm_compute; reflexivity. Qed.

End more_cache_scenarios.

Section more_manager_scenarios.
Import ProcessManager.

Lemma started_reachable : reachable started.
Proof. apply reachable_step; [apply reachable_init|reflexivity]. Qed.

(** After a first full refresh and a quick one. *)
Lemma manager_invariant_example :
  let s := step started (GetProcesses answering false) in
  NoDup (processes (self s)) ∧
  (∀ r, r ∈ processes (self s) →
     ∃ pid, has_pid (store s) r pid ∧
            ∀ k, is_Some ((store s !!! r) !! k) ↔ k ∈ record_keys) ∧
  length (ProcessCache._cache (cache (self s))) ≤ 500 ∧
  ∀ k r, OrderedDict.get (ProcessCache._cache (cache (self s))) k = Some r →
         has_pid (store s) r k.
Proof.
  apply (manager_invariant (step started (GetProcesses answering false))).
  apply reachable_step; [apply started_reachable|reflexivity].
Defined.

(** The DLL did not load and psutil lists one process, with its
    [memory_info]. *)
Lemma fallback_refresh_outcome_example :
  (Forall (λ it, is_Some (info_memory_info it)) (os_process_iter dll_down) ∧
   ∃ s', get_processes dll_down true (init_state (inl OSError))
         = Return (processes (self s')) s' ∧
     processes (self s') = [0]) ∨
  (∃ pre item post s',
     get_processes dll_down true (init_state (inl OSError))
       = Raise AttributeError s' ∧
     os_process_iter dll_down = pre ++ item :: post ∧
     Forall (λ it, is_Some (info_memory_info it)) pre ∧
     info_memory_info item = None ∧
     processes (self s') = seq 0 (length pre) ∧
     cache (self s') = cache (self (init_state (inl OSError))) ∧
     last_full_update (self s')
     = last_full_update (self (init_state (inl OSError)))).
Proof.
  apply (fallback_refresh_outcome dll_down (init_state (inl OSError))).
  reflexivity.
Defined.

(** A quick refresh after the first full refresh. *)
Lemma quick_refresh_outcome_example :
  (∃ s', get_processes dll_down false started
         = Return (processes (self started)) s') ∨
  (∃ e s' j proc pid,
     get_processes dll_down false started = Raise e s' ∧
     processes (self started) !! j = Some proc ∧
     has_pid (store started) proc pid ∧
     os_Process dll_down j pid = inl e ∧ vanished_or_denied e = false).
Proof.
  apply (quick_refresh_outcome dll_down started), started_reachable.
Defined.

(** The DLL lists the identities 10 and 11: the list has their two records,
    in this order. *)
Lemma dll_refresh_keeps_order_example :
  ∃ s', get_processes dll_up true (init_state (inr ProcessInfo_dll))
        = Return (processes (self s')) s' ∧
    processes (self s') = [0; 1] ∧
    Forall2 (has_pid (store s')) (processes (self s')) [10; 11]%Z.
Proof.
  apply (dll_refresh_keeps_order dll_up (init_state (inr ProcessInfo_dll))
           (dll_item 10 "a" 5) [dll_item 11 "b" 6]).
  - apply reachable_init.
  - reflexivity.
  - reflexivity.
Defined.

(** The identity 10 is cached with the user "alice"; one second later
    the DLL lists it again and psutil is denied access to the process: the
    record that the full refresh returns has the defaults for cpu_percent
    and status, and the user "alice". *)
Lemma enrichment_failure_keeps_cached_user :
  let s1 := final (get_processes dll_answered true
                     (init_state (inr ProcessInfo_dll))) in
  let r := get_processes dll_denied true s1 in
  os_Process dll_denied 0 10 = inl AccessDenied ∧
  OrderedDict.get (ProcessCache._cache (cache (self s1))) 10 = Some 0 ∧
  (store s1 !!! 0) !! "username" = Some (VStr "alice") ∧
  match r with Return l _ => l = [1] | Raise _ _ => False end ∧
  (store (final r) !!! 1) !! "pid" = Some (VInt 10) ∧
  (store (final r) !!! 1) !! "cpu_percent" = Some (VFloat 0) ∧
  (store (final r) !!! 1) !! "status" = Some (VStr "running") ∧
  (store (final r) !!! 1) !! "username" = Some (VStr "alice").
Proof. split_and!; vm_compute; reflexivity. Qed.

Lemma answered_reachable : reachable answered.
Proof. apply reachable_step; [apply reachable_init|reflexivity]. Qed.

(** psutil is denied access to the first process of the call and the cache
    is empty: the record of the DLL's first entry has the defaults and the
    refresh returns.  The identity 10 is cached and psutil is denied access
    to its process: its record has the defaults for cpu_percent and status.
    The quick refresh returns the held list; the first held record is
    unchanged and the second is refreshed. *)
Lemma per_record_failure_examples :
  (∃ s' i r,
     get_processes dll_up true (init_state (inr ProcessInfo_dll))
       = Return (processes (self s')) s' ∧
     processes (self s') !! i = Some r ∧
     has_pid (store s') r 10 ∧
     (store s' !!! r) !! "cpu_percent" = Some (VFloat 0) ∧
     (store s' !!! r) !! "status" = Some (VStr "running") ∧
     (store s' !!! r) !! "username" = Some (VStr "N/A")) ∧
  (∃ s' i r,
     get_processes dll_denied true answered
       = Return (processes (self s')) s' ∧
     processes (self s') !! i = Some r ∧
     has_pid (store s') r 10 ∧
     (store s' !!! r) !! "cpu_percent" = Some (VFloat 0) ∧
     (store s' !!! r) !! "status" = Some (VStr "running")) ∧
  (match get_processes dll_up false holding with
   | Return l _ => l = [0; 1]
   | Raise _ _ => False
   end ∧
   store (final (get_processes dll_up false holding)) !!! 0
     = store holding !!! 0 ∧
   store (final (get_processes dll_up false holding)) !!! 1
     = refresh (store holding !!! 1) busy).
Proof.
  split; [|split].
  - destruct (proj1 per_record_failures_are_swallowed dll_up
                (init_state (inr ProcessInfo_dll)) ProcessInfo_dll
                [dll_item 10 "a" 5; dll_item 11 "b" 6])
      as (s' & pids & n & Hret & Hpids & _ & _ & _ & Hrec);
      [reflexivity..|done|reflexivity|done|].
    destruct (Hrec 0 (dll_item 10 "a" 5) 10%Z (VStr "a") (VInt 5)
                eq_refl eq_refl eq_refl eq_refl)
      as (i & r & Hi & Hp & _ & Hcpu & Hstatus & Huser).
    { by intros e [= <-]. }
    exists s', i, r. split_and!; try done.
    by apply (Forall2_lookup_lr _ _ _ _ _ _ Hpids Hi Hp).
  - destruct (proj1 per_record_failures_are_swallowed dll_denied
                answered ProcessInfo_dll [dll_item 10 "a" 5])
      as (s' & pids & n & Hret & Hpids & _ & _ & _ & Hrec).
    + unfold answered. by rewrite step_dll.
    + reflexivity.
    + reflexivity.
    + done.
    + reflexivity.
    + apply (reachable_inv answered answered_reachable).
    + destruct (Hrec 0 (dll_item 10 "a" 5) 10%Z (VStr "a") (VInt 5)
                  eq_refl eq_refl eq_refl eq_refl)
        as (i & r & Hi & Hp & _ & Hcpu & Hstatus & _).
      { by intros e [= <-]. }
      exists s', i, r. split_and!; try done.
      by apply (Forall2_lookup_lr _ _ _ _ _ _ Hpids Hi Hp).
  - destruct (proj2 per_record_failures_are_swallowed dll_up holding)
      as (_ & Hret & Hrec).
    + by apply (bool_decide_unpack _).
    + intros proc Hin. change (proc ∈ [0; 1]) in Hin.
      apply elem_of_cons in Hin as [->|Hin]; [exists 7%Z; reflexivity|].
      apply elem_of_cons in Hin as [->|Hin]; [exists 8%Z; reflexivity|].
      by apply elem_of_nil in Hin.
    + split_and!.
      * destruct (get_processes dll_up false holding) as [l s'|e s'];
          [done|].
        destruct Hret as ([|[|j]] & proc & pid & Hj & Hpid & Hos & Hv);
          simpl in Hj; [| |done].
        -- injection Hj as <-. injection Hpid as <-. by injection Hos as <-.
        -- injection Hj as <-. injection Hpid as <-. done.
      * apply (Hrec 0 0 7%Z); [reflexivity..|]. intros k ? ? Hk. lia.
      * apply (Hrec 1 1 8%Z); [reflexivity..|].
        intros [|k] prock pidk Hk Hlook Hpid e He; [|lia].
        injection Hlook as <-. injection Hpid as <-. by injection He as <-.
Defined.

End more_manager_scenarios.

End more_scenarios.
